(** * Remote Home-Assistant: the configuration flows of [config_flow.py]

    A shallow embedding of [custom_components/remote_homeassistant/config_flow.py]:
    the connection set-up flow ([ConfigFlow.async_step_user]) and the four-step
    options wizard ([OptionsFlowHandler]).  Python objects that the module
    mutates in place (lists) live in an explicit store of list objects, so
    that two names for one list see each other's [append].  Text is a
    sequence of bytes (UTF-8); where Python treats text outside ASCII
    otherwise than byte by byte ([int], the characters of a string), and
    where a submission carries a value that the types of the model have
    no place for, a step stops with [Unmodelled].  *)

From Stdlib Require Import ZArith NArith Lia Ascii String.
From stdpp Require Import base option list gmap strings sorting.

Local Open Scope Z_scope.

(** ** The Python built-ins the module relies on *)

Module Py.

(** *** Decimal text of integers: [str(n)] *)

Definition digit_chr (d : N) : ascii := ascii_of_N (48 + d).

Definition digit_val (c : ascii) : option Z :=
  let n := N_of_ascii c in
  if ((48 <=? n) && (n <=? 57))%N then Some (Z.of_N n - 48) else None.

(** Digits of [n], most significant first, in front of [acc].  The fuel
    bounds the number of digits; [str_of_N] gives enough of it. *)
Fixpoint digits_aux (fuel : nat) (n : N) (acc : string) : string :=
  match fuel with
  | O => acc
  | S fuel' =>
      let acc' := String (digit_chr (n mod 10)) acc in
      if (n <? 10)%N then acc' else digits_aux fuel' (n / 10) acc'
  end.

Definition str_of_N (n : N) : string :=
  digits_aux (S (N.to_nat (N.log2 n))) n "".

(** [str(z)] for a Python [int]. *)
Definition str_of_int (z : Z) : string :=
  if z <? 0 then String "-"%char (str_of_N (Z.abs_N z))
  else str_of_N (Z.to_N z).

(** *** [int(s)] on ASCII text

    Surrounding white space (tab, line feed, vertical tab, form feed,
    carriage return and the blank) is dropped, one sign is allowed, and
    the digits may be grouped by single underscores.  [None] stands for
    [ValueError].  This is [int] on text of ASCII characters only
    ([isascii]); on other text [int] also reads the decimal digits and
    the white space of other scripts, which are not modelled, and the
    callers below do not follow the code there. *)

(** [s.isascii()] *)
Definition isascii (s : string) : bool :=
  forallb (fun c => (N_of_ascii c <? 128)%N) (list_ascii_of_string s).

(** [sys.get_int_max_str_digits()] as it is by default where the
    interpreter has this limit (Python 3.11 on): there [int] raises
    [ValueError] on text of more digits.  [int] below has no limit; a
    statement about arbitrary text bounds its length by this number. *)
Definition int_max_str_digits : nat := 4300.

Definition is_space (c : ascii) : bool :=
  let n := N_of_ascii c in
  (((9 <=? n) && (n <=? 13)) || (n =? 32))%N.

Fixpoint lstrip (s : string) : string :=
  match s with
  | EmptyString => EmptyString
  | String c s' => if is_space c then lstrip s' else s
  end.

Fixpoint rstrip (s : string) : string :=
  match s with
  | EmptyString => EmptyString
  | String c s' =>
      match rstrip s' with
      | EmptyString => if is_space c then EmptyString else String c EmptyString
      | r => String c r
      end
  end.

Definition strip (s : string) : string := rstrip (lstrip s).

(** The digits that follow a digit already read: [acc] is the value so far. *)
Fixpoint int_digits (acc : Z) (s : string) : option Z :=
  match s with
  | EmptyString => Some acc
  | String c s' =>
      match digit_val c with
      | Some d => int_digits (10 * acc + d) s'
      | None =>
          if Ascii.eqb c "_" then
            match s' with
            | String c' s'' =>
                match digit_val c' with
                | Some d => int_digits (10 * acc + d) s''
                | None => None
                end
            | EmptyString => None
            end
          else None
      end
  end.

Definition int_body (s : string) : option Z :=
  match s with
  | String c s' =>
      match digit_val c with
      | Some d => int_digits d s'
      | None => None
      end
  | EmptyString => None
  end.

Definition int (s : string) : option Z :=
  match strip s with
  | String c r =>
      if Ascii.eqb c "-" then Z.opp <$> int_body r
      else if Ascii.eqb c "+" then int_body r
      else int_body (String c r)
  | EmptyString => None
  end.

(** *** [s.split(sep)] for a one-character separator: never empty. *)
Fixpoint split (sep : ascii) (s : string) : list string :=
  match s with
  | EmptyString => [EmptyString]
  | String c s' =>
      if Ascii.eqb c sep then EmptyString :: split sep s'
      else match split sep s' with
           | h :: t => String c h :: t
           | [] => [String c EmptyString]
           end
  end.

(** *** [l[i]]: a negative index counts from the end; [None] is
    [IndexError]. *)
Definition getitem {A} (l : list A) (i : Z) : option A :=
  let n := Z.of_nat (length l) in
  if 0 <=? i then l !! Z.to_nat i
  else if - n <=? i then l !! Z.to_nat (n + i)
  else None.

(** A text of decimal digits only, and the number it writes after the
    digits that made [acc]. *)
Fixpoint digits_only (s : string) : Prop :=
  match s with
  | EmptyString => True
  | String c s' => is_Some (digit_val c) /\ digits_only s'
  end.

Fixpoint digits_value (acc : Z) (s : string) : Z :=
  match s with
  | EmptyString => acc
  | String c s' => digits_value (10 * acc + default 0 (digit_val c)) s'
  end.

End Py.

(** ** Values, filter records and the Python constants *)

(** Immutable Python values.  A [float] is carried as its [repr] text
    (no arithmetic is done on the thresholds here, only [str] and
    truth tests). *)
Inductive scalar :=
  | SNone
  | SBool (b : bool)
  | SInt (z : Z)
  | SFloat (repr : string)
  | SStr (s : string).

(** [str(x)] as an f-string field formats it. *)
Definition str (a : scalar) : string :=
  match a with
  | SNone => "None"
  | SBool true => "True"
  | SBool false => "False"
  | SInt z => Py.str_of_int z
  | SFloat r => r
  | SStr s => s
  end.

(** [bool(x)]. *)
Definition scalar_truthy (a : scalar) : bool :=
  match a with
  | SNone => false
  | SBool b => b
  | SInt z => negb (z =? 0)
  | SFloat r => negb (String.eqb r "0.0" || String.eqb r "-0.0")
  | SStr s => negb (String.eqb s "")
  end.

(** A threshold filter: the dict with the four [FILTER_OPTIONS] keys that
    line 194 builds. *)
Record Filter := mkFilter {
  entity_id : scalar;
  unit_of_measurement : scalar;
  above : scalar;
  below : scalar
}.

(** Lists are objects in a store and are named by their address; they
    hold event names, display strings, entity ids or filter records. *)
Definition loc := nat.

Inductive elem :=
  | EStr (s : string)
  | EDict (f : Filter).

Inductive value :=
  | VScalar (a : scalar)
  | VList (l : loc).

#[global] Instance scalar_eq_dec : EqDecision scalar.
Proof. solve_decision. Defined.
#[global] Instance Filter_eq_dec : EqDecision Filter.
Proof. solve_decision. Defined.
#[global] Instance elem_eq_dec : EqDecision elem.
Proof. solve_decision. Defined.
#[global] Instance value_eq_dec : EqDecision value.
Proof. solve_decision. Defined.

(** Keys from [homeassistant.const]. *)
Definition CONF_HOST : string := "host".
Definition CONF_PORT : string := "port".
Definition CONF_VERIFY_SSL : string := "verify_ssl".
Definition CONF_ACCESS_TOKEN : string := "access_token".
Definition CONF_ENTITY_ID : string := "entity_id".
Definition CONF_UNIT_OF_MEASUREMENT : string := "unit_of_measurement".
Definition CONF_ABOVE : string := "above".
Definition CONF_BELOW : string := "below".

(** Modelled from the spec: the keys of [const.py], which is not among the
    sources; the spec's end-to-end scenario names the option keys
    [entity_prefix], [include_domains], [filter] and [subscribe_events]. *)
Definition CONF_SECURE : string := "secure".
Definition CONF_FILTER : string := "filter".
Definition CONF_SUBSCRIBE_EVENTS : string := "subscribe_events".
Definition CONF_ENTITY_PREFIX : string := "entity_prefix".
Definition CONF_INCLUDE_DOMAINS : string := "include_domains".
Definition CONF_INCLUDE_ENTITIES : string := "include_entities".
Definition CONF_EXCLUDE_DOMAINS : string := "exclude_domains".
Definition CONF_EXCLUDE_ENTITIES : string := "exclude_entities".

Definition ADD_NEW_EVENT : string := "add_new_event".

Definition FILTER_OPTIONS : list string :=
  [CONF_ENTITY_ID; CONF_UNIT_OF_MEASUREMENT; CONF_ABOVE; CONF_BELOW].

(** [_filter_str(index, filter)], lines 54-59. *)
Definition _filter_str (index : Z) (filter : Filter) : string :=
  Py.str_of_int (index + 1) +:+ ". " +:+ str (entity_id filter)
  +:+ ", unit: " +:+ str (unit_of_measurement filter)
  +:+ ", above: " +:+ str (above filter)
  +:+ ", below: " +:+ str (below filter).

(** [[_filter_str(i, filter) for i, filter in enumerate(filters)]], counting
    from [i]. *)
Fixpoint filter_strs_from (i : Z) (fs : list Filter) : list string :=
  match fs with
  | [] => []
  | f :: fs' => _filter_str i f :: filter_strs_from (i + 1) fs'
  end.

(** ** Exceptions and the state-and-exception monad *)

Inductive exn :=
  | TypeError
  | ValueError
  | IndexError
  | KeyError
  | AttributeError
  | OSError
  | ApiProblem
  | CannotConnect
  | InvalidAuth
  | AbortFlow (reason : string)
  | OtherException (name : string)     (* any other class derived from Exception *)
  | BaseExceptionOnly (name : string)  (* a class outside Exception: KeyboardInterrupt,
                                          SystemExit, GeneratorExit, asyncio.CancelledError *)
  | BadAddress   (* a list address outside the store: no Python program gets there *)
  | Unmodelled.  (* no exception of the code: the model does not follow the code on
                    this input and stops here *)

(** [isinstance(e, Exception)]: what [except Exception] catches. *)
Definition is_exception (e : exn) : bool :=
  match e with
  | BaseExceptionOnly _ => false
  | _ => true
  end.

#[global] Instance exn_eq_dec : EqDecision exn.
Proof. solve_decision. Defined.

Inductive result (A : Type) :=
  | Ok (a : A)
  | Raise (e : exn).
Arguments Ok {A} a.
Arguments Raise {A} e.

Section Monad.
Context {S : Type}.

(** A computation reads and writes a state; what it wrote before
    raising stays written. *)
Definition M (A : Type) : Type := S -> result A * S.

Definition ret {A} (a : A) : M A := fun s => (Ok a, s).
Definition raise {A} (e : exn) : M A := fun s => (Raise e, s).
Definition bind {A B} (c : M A) (k : A -> M B) : M B :=
  fun s => match c s with
           | (Ok a, s') => k a s'
           | (Raise e, s') => (Raise e, s')
           end.
Definition get : M S := fun s => (Ok s, s).
Definition modify (f : S -> S) : M unit := fun s => (Ok tt, f s).

(** [try: c except: handler]. *)
Definition try_except {A} (c : M A) (handler : exn -> M A) : M A :=
  fun s => match c s with
           | (Ok a, s') => (Ok a, s')
           | (Raise e, s') => handler e s'
           end.

(** An optional result, failing with [e] when there is none. *)
Definition or_raise {A} (e : exn) (o : option A) : M A :=
  match o with Some a => ret a | None => raise e end.

Fixpoint mapM {A B} (f : A -> M B) (l : list A) : M (list B) :=
  match l with
  | [] => ret []
  | x :: l' =>
      bind (f x) (fun y => bind (mapM f l') (fun ys => ret (y :: ys)))
  end.
End Monad.
Arguments M : clear implicits.

Declare Scope py_scope.
Delimit Scope py_scope with py.
Notation "x <- c ;; k" := (bind c (fun x => k))
  (at level 100, c at next level, right associativity) : py_scope.
Notation "c ;;; k" := (bind c (fun _ => k))
  (at level 100, right associativity) : py_scope.

(** ** The forms and results a step hands back to the host *)

(** [vol.UNDEFINED] or a given default. *)
Inductive dflt :=
  | UNDEFINED
  | Given (v : value).

(** What a field accepts. The choices of [cv.multi_select] are recorded
    as they are when the form is built. *)
Inductive validator :=
  | IsStr
  | IsInt
  | IsBool
  | CoerceFloat
  | MultiSelect (choices : list string)
  | MultiSelectSet (choices : gset string).

Record field := mkField {
  fkey : string;
  frequired : bool;
  fdefault : dflt;
  fsuggested : option value;   (* description={"suggested_value": ...} *)
  fvalidator : validator
}.

Definition Optional (k : string) (d : dflt) (v : validator) : field :=
  mkField k false d None v.
Definition Required (k : string) (v : validator) : field :=
  mkField k true UNDEFINED None v.

Inductive FlowResult :=
  | ShowForm (step_id : string) (data_schema : list field)
             (errors : gmap string string)
  | CreateEntry (title : string) (data : gmap string value).

(** ** The options wizard, [OptionsFlowHandler] *)

Module OptionsFlow.

(** The handler's fields together with what it reaches: the store of
    list objects, the entry's persisted options
    ([self.config_entry.options]) and the remote connection's entity
    names ([self.hass.data[DOMAIN][entry_id][CONF_REMOTE_CONNECTION]._all_entity_names],
    absent when that look-up has no such key). *)
Record World := mkWorld {
  heap : list (list elem);
  entry_options : gmap string value;
  remote_entities : option (gset string);
  filters : value;                              (* self.filters *)
  events : option (gset string);                (* self.events; None is Python's None *)
  options : option (gmap string value)          (* self.options *)
}.

Definition set_heap (h : list (list elem)) (w : World) : World :=
  mkWorld h (entry_options w) (remote_entities w) (filters w) (events w) (options w).
Definition set_entry_options (o : gmap string value) (w : World) : World :=
  mkWorld (heap w) o (remote_entities w) (filters w) (events w) (options w).
Definition set_filters (f : value) (w : World) : World :=
  mkWorld (heap w) (entry_options w) (remote_entities w) f (events w) (options w).
Definition set_events (e : gset string) (w : World) : World :=
  mkWorld (heap w) (entry_options w) (remote_entities w) (filters w) (Some e) (options w).
Definition set_options (o : gmap string value) (w : World) : World :=
  mkWorld (heap w) (entry_options w) (remote_entities w) (filters w) (events w) (Some o).

(** [__init__], lines 119-124. *)
Definition init_handler (h : list (list elem)) (persisted : gmap string value)
    (remote : option (gset string)) : World :=
  mkWorld h persisted remote (VScalar SNone) None None.

Local Open Scope py_scope.

(** *** List objects *)

(** A new list object; its address is the next free one. *)
Definition alloc (xs : list elem) : M World loc :=
  w <- get ;;
  modify (set_heap (heap w ++ [xs])) ;;;
  ret (length (heap w)).

Definition deref (l : loc) : M World (list elem) :=
  w <- get ;; or_raise BadAddress (heap w !! l).

(** [lst.append(x)] on the object itself. *)
Definition append (l : loc) (x : elem) : M World unit :=
  xs <- deref l ;;
  modify (fun w => set_heap (<[l := xs ++ [x]]> (heap w)) w).

(** [v.append]: only lists have the method. *)
Definition append_method (v : value) : M World loc :=
  match v with
  | VList l => ret l
  | VScalar _ => raise AttributeError
  end.

(** [v.append(x)], [x] a value at hand. *)
Definition append_value (v : value) (x : elem) : M World unit :=
  l <- append_method v ;; append l x.

(** The items a [for] loop or [set(...)] draws from [v]: a list's
    elements, a string's characters; other values are not iterable.
    The characters of ASCII text are its bytes; the model stops on
    other text. *)
Definition iterate (v : value) : M World (list elem) :=
  match v with
  | VList l => deref l
  | VScalar (SStr s) =>
      if Py.isascii s
      then ret ((fun c => EStr (String c EmptyString)) <$> list_ascii_of_string s)
      else raise Unmodelled
  | VScalar _ => raise TypeError
  end.

(** [bool(v)]: an empty list is false. *)
Definition truthy (v : value) : M World bool :=
  match v with
  | VScalar a => ret (scalar_truthy a)
  | VList l => xs <- deref l ;; ret (match xs with [] => false | _ => true end)
  end.

(** [d.get(k, [])]: the default list is built before the look-up. *)
Definition get_or_new_list (d : gmap string value) (k : string) : M World value :=
  l <- alloc [] ;;
  ret (match d !! k with Some v => v | None => VList l end).

(** [d.get(k)] *)
Definition dict_get (d : gmap string value) (k : string) : value :=
  match d !! k with Some v => v | None => VScalar SNone end.

(** [set(v)]: members must be hashable, which a filter dict is not.
    The sets of this module hold names, so their members are strings. *)
Definition hash_elem (e : elem) : M World string :=
  match e with
  | EStr s => ret s
  | EDict _ => raise TypeError
  end.

Definition set_of (v : value) : M World (gset string) :=
  xs <- iterate v ;;
  names <- mapM hash_elem xs ;;
  ret (list_to_set names).

(** [sorted(s)] on strings, which compare by code point. *)
Definition str_le (a b : string) : Prop := Is_true (String.leb a b).
#[global] Instance str_le_dec : RelDecision str_le.
Proof. intros a b. unfold str_le. apply _. Defined.

Definition sorted (l : list string) : list string := merge_sort str_le l.

(** *** [_default], lines 247-249 *)
Definition _default (conf : string) : M World dflt :=
  w <- get ;;
  let v := dict_get (entry_options w) conf in
  t <- truthy v ;;
  ret (if t then Given v else UNDEFINED).

(** [entity_id.split(".")[0]] *)
Definition domain_of (entity : string) : M World string :=
  or_raise IndexError (Py.getitem (Py.split "." entity) 0).

(** *** [_domains_and_entities], lines 251-266 *)
Definition _domains_and_entities : M World (list string * list string) :=
  w <- get ;;
  remote <- or_raise KeyError (remote_entities w) ;;
  inc <- get_or_new_list (entry_options w) CONF_INCLUDE_ENTITIES ;;
  include_entities <- set_of inc ;;
  exc <- get_or_new_list (entry_options w) CONF_EXCLUDE_ENTITIES ;;
  exclude_entities <- set_of exc ;;
  let entities := sorted (elements (remote ∪ include_entities ∪ exclude_entities)) in
  prefixes <- mapM domain_of entities ;;
  let domains := sorted (elements (list_to_set prefixes : gset string)) in
  ret (domains, entities).

(** *** [async_step_events], lines 217-245 *)

(** An event name handed to [set.add]: a list is unhashable.  The
    field is typed [str] by the form and the sets of the model hold
    strings; the code would take any other hashable value as well, where
    the model stops. *)
Definition as_name (v : value) : M World string :=
  match v with
  | VScalar (SStr s) => ret s
  | VScalar _ => raise Unmodelled
  | VList _ => raise TypeError
  end.

(** The form of lines 235-245; [evs] is [self.events] as it is then. *)
Definition events_form (selected : dflt) (evs : gset string) : FlowResult :=
  ShowForm "events"
    [ Optional CONF_SUBSCRIBE_EVENTS selected (MultiSelectSet evs);
      Optional ADD_NEW_EVENT UNDEFINED IsStr ]
    ∅.

Definition async_step_events (user_input : option (gmap string value))
    : M World FlowResult :=
  match user_input with
  | Some ui =>
      match ui !! ADD_NEW_EVENT with
      | None =>
          chosen <- get_or_new_list ui CONF_SUBSCRIBE_EVENTS ;;
          w <- get ;;
          opts <- or_raise TypeError (options w) ;;
          let opts' := <[CONF_SUBSCRIBE_EVENTS := chosen]> opts in
          modify (set_options opts') ;;;
          ret (CreateEntry "" opts')
      | Some new_event =>
          selected <- get_or_new_list ui CONF_SUBSCRIBE_EVENTS ;;
          w <- get ;;
          evs <- or_raise AttributeError (events w) ;;
          name <- as_name new_event ;;
          modify (set_events ({[name]} ∪ evs)) ;;;
          append_value selected (EStr name) ;;;
          ret (events_form (Given selected) ({[name]} ∪ evs))
      end
  | None =>
      w <- get ;;
      let stored := dict_get (entry_options w) CONF_SUBSCRIBE_EVENTS in
      t <- truthy stored ;;
      src <- (if t then ret stored else l <- alloc [] ;; ret (VList l)) ;;
      evs <- set_of src ;;
      modify (set_events evs) ;;;
      selected <- _default CONF_SUBSCRIBE_EVENTS ;;
      ret (events_form selected evs)
  end.

(** *** [async_step_general_filters], lines 179-215 *)

(** [filter[CONF_ENTITY_ID]] and its siblings need a dict. *)
Definition as_filter (e : elem) : M World Filter :=
  match e with
  | EDict f => ret f
  | EStr _ => raise TypeError
  end.

(** [[_filter_str(i, filter) for i, filter in enumerate(v)]] *)
Definition filter_strings (v : value) : M World (list string) :=
  xs <- iterate v ;;
  fs <- mapM as_filter xs ;;
  ret (filter_strs_from 0 fs).

(** [int(filter.split(".")[0]) - 1]; [Py.int] is [int] on ASCII text, and
    the model stops on other text. *)
Definition selected_index (e : elem) : M World Z :=
  match e with
  | EStr s =>
      head <- or_raise IndexError (Py.getitem (Py.split "." s) 0) ;;
      if Py.isascii head
      then n <- or_raise ValueError (Py.int head) ;; ret (n - 1)
      else raise Unmodelled
  | EDict _ => raise AttributeError
  end.

(** [v[i]] *)
Definition subscript (v : value) (i : Z) : M World elem :=
  xs <- iterate v ;; or_raise IndexError (Py.getitem xs i).

(** [len(v)] *)
Definition len (v : value) : M World Z :=
  xs <- iterate v ;; ret (Z.of_nat (length xs)).

(** A field of the new filter record: the form types them [str] and
    [float] and the records of the model hold no list; the code would
    store a list as well, where the model stops. *)
Definition as_scalar (v : value) : M World scalar :=
  match v with
  | VScalar a => ret a
  | VList _ => raise Unmodelled
  end.

(** [{conf: user_input.get(conf) for conf in FILTER_OPTIONS}] *)
Definition new_filter_of (ui : gmap string value) : M World Filter :=
  fields <- mapM (fun conf => as_scalar (dict_get ui conf)) FILTER_OPTIONS ;;
  match fields with
  | [e; u; a; b] => ret (mkFilter e u a b)
  | _ => raise TypeError
  end.

Definition general_filters_form (selected : value) : M World FlowResult :=
  w <- get ;;
  strings <- filter_strings (filters w) ;;
  ret (ShowForm "general_filters"
         [ Optional CONF_FILTER (Given selected) (MultiSelect strings);
           Optional CONF_ENTITY_ID UNDEFINED IsStr;
           Optional CONF_UNIT_OF_MEASUREMENT UNDEFINED IsStr;
           Optional CONF_ABOVE UNDEFINED CoerceFloat;
           Optional CONF_BELOW UNDEFINED CoerceFloat ]
         ∅).

(** The finalize branch up to its last statement, lines 183-190. *)
Definition finalize_filters (ui : gmap string value) : M World unit :=
  chosen <- get_or_new_list ui CONF_FILTER ;;
  strs <- iterate chosen ;;
  selected_indices <- mapM selected_index strs ;;
  picked <- mapM (fun i => w <- get ;; subscript (filters w) i)
                 selected_indices ;;
  l <- alloc picked ;;
  w <- get ;;
  opts <- or_raise TypeError (options w) ;;
  modify (set_options (<[CONF_FILTER := VList l]> opts)).

Definition async_step_general_filters (user_input : option (gmap string value))
    : M World FlowResult :=
  match user_input with
  | Some ui =>
      match ui !! CONF_ENTITY_ID with
      | None =>
          finalize_filters ui ;;;
          async_step_events None
      | Some _ =>
          selected <- get_or_new_list ui CONF_FILTER ;;
          new_filter <- new_filter_of ui ;;
          (* [selected.append] is looked up before its argument is built *)
          sel <- append_method selected ;;
          w <- get ;;
          n <- len (filters w) ;;
          append sel (EStr (_filter_str n new_filter)) ;;;
          append_value (filters w) (EDict new_filter) ;;;
          general_filters_form selected
      end
  | None =>
      w <- get ;;
      fs <- get_or_new_list (entry_options w) CONF_FILTER ;;
      modify (set_filters fs) ;;;
      strs <- filter_strings fs ;;
      l <- alloc (EStr <$> strs) ;;
      general_filters_form (VList l)
  end.

(** *** [async_step_domain_entity_filters], lines 148-177 *)
Definition async_step_domain_entity_filters
    (user_input : option (gmap string value)) : M World FlowResult :=
  match user_input with
  | Some ui =>
      w <- get ;;
      opts <- or_raise AttributeError (options w) ;;
      modify (set_options (ui ∪ opts)) ;;;
      async_step_general_filters None
  | None =>
      de <- _domains_and_entities ;;
      let '(domains, entities) := de in
      d1 <- _default CONF_INCLUDE_DOMAINS ;;
      d2 <- _default CONF_INCLUDE_ENTITIES ;;
      d3 <- _default CONF_EXCLUDE_DOMAINS ;;
      d4 <- _default CONF_EXCLUDE_ENTITIES ;;
      ret (ShowForm "domain_entity_filters"
             [ Optional CONF_INCLUDE_DOMAINS d1 (MultiSelect domains);
               Optional CONF_INCLUDE_ENTITIES d2 (MultiSelect entities);
               Optional CONF_EXCLUDE_DOMAINS d3 (MultiSelect domains);
               Optional CONF_EXCLUDE_ENTITIES d4 (MultiSelect entities) ]
             ∅)
  end.

(** *** [async_step_init], lines 126-146 *)
Definition async_step_init (user_input : option (gmap string value))
    : M World FlowResult :=
  match user_input with
  | Some ui =>
      modify (set_options ui) ;;;
      async_step_domain_entity_filters None
  | None =>
      w <- get ;;
      ret (ShowForm "init"
             [ mkField CONF_ENTITY_PREFIX false UNDEFINED
                 (Some (dict_get (entry_options w) CONF_ENTITY_PREFIX)) IsStr ]
             ∅)
  end.

(** *** Driving the wizard

    The host calls the step whose form it showed last with what the user
    submitted, and on [CreateEntry] replaces the entry's options by the
    data (the entry store's write).  A raised exception or an abandoned
    run writes nothing. *)
Definition step (step_id : string) (user_input : option (gmap string value))
    : M World FlowResult :=
  if String.eqb step_id "init" then async_step_init user_input
  else if String.eqb step_id "domain_entity_filters"
       then async_step_domain_entity_filters user_input
  else if String.eqb step_id "general_filters"
       then async_step_general_filters user_input
  else if String.eqb step_id "events" then async_step_events user_input
  else raise AttributeError.

Definition finish (r : FlowResult) : M World unit :=
  match r with
  | CreateEntry _ data => modify (set_entry_options data)
  | ShowForm _ _ _ => ret tt
  end.

(** The wizard fed the submissions [inputs] one after the other, each to
    the step whose form is showing; it stops when the inputs run out
    (the user abandons the run there) or the result is no form. *)
Fixpoint feed (r : FlowResult) (inputs : list (gmap string value))
    : M World FlowResult :=
  match r, inputs with
  | ShowForm step_id _ _, ui :: rest =>
      r' <- step step_id (Some ui) ;; feed r' rest
  | _, _ => ret r
  end.

Definition run (inputs : list (gmap string value)) : M World FlowResult :=
  r <- async_step_init None ;;
  r' <- feed r inputs ;;
  finish r' ;;;
  ret r'.

(** The persisted options as a reader sees them: every list by its
    contents. *)
Inductive shown :=
  | ShownScalar (a : scalar)
  | ShownList (xs : list elem)
  | ShownNothing.

Definition show (h : list (list elem)) (v : value) : shown :=
  match v with
  | VScalar a => ShownScalar a
  | VList l => match h !! l with Some xs => ShownList xs | None => ShownNothing end
  end.

Definition persisted (w : World) : gmap string shown :=
  show (heap w) <$> entry_options w.

(** The filter entry of the options draft, by its contents. *)
Definition stored_filters (w : World) : option (list elem) :=
  match options w with
  | Some opts =>
      match opts !! CONF_FILTER with
      | Some (VList l) => heap w !! l
      | _ => None
      end
  | None => None
  end.

(** The world the finalize branch leaves: the default list and the list
    of picked records are new objects, and the draft names the latter. *)
Definition after_finalize (w : World) (opts : gmap string value)
    (picked : list elem) : World :=
  mkWorld (heap w ++ [[]; picked]) (entry_options w) (remote_entities w)
          (filters w) (events w)
          (Some (<[CONF_FILTER := VList (S (length (heap w)))]> opts)).

(** [w'] differs from [w] by new objects in the store at most (and by
    the event set): the draft, the wizard's filter list and the
    persisted options are the same, and every object of [w] is where it
    was. *)
Definition extends (w w' : World) : Prop :=
  options w' = options w /\ filters w' = filters w
  /\ entry_options w' = entry_options w
  /\ exists ext, heap w' = heap w ++ ext.


(** The list that [user_input.get(k, [])] denotes in the store [h], when
    it is one. *)
Definition submitted_list (h : list (list elem)) (ui : gmap string value)
    (k : string) : option (list elem) :=
  match ui !! k with
  | None => Some []
  | Some (VList l) => h !! l
  | Some (VScalar _) => None
  end.

(** [bool(v)] read off the store. *)
Definition is_truthy (h : list (list elem)) (v : value) : bool :=
  match v with
  | VScalar a => scalar_truthy a
  | VList l => match h !! l with Some (_ :: _) => true | _ => false end
  end.

(** Every list the persisted options name is an object of the store. *)
Definition store_ok (w : World) : Prop :=
  forall k l, entry_options w !! k = Some (VList l) -> is_Some (heap w !! l).

(** The entity names persisted under key [k], none when the key was
    never configured. *)
Definition persisted_names (w : World) (k : string) (names : list string) : Prop :=
  match entry_options w !! k with
  | None => names = []
  | Some (VList l) => heap w !! l = Some (EStr <$> names)
  | Some (VScalar _) => False
  end.

(** The number a selection string leads with, as line 187 reads it:
    [int] of the text before the first ".", when that text is ASCII
    ([leading_isascii] below). *)
Definition leading_number (s : string) : option Z :=
  match Py.getitem (Py.split "." s) 0 with
  | Some head => Py.int head
  | None => None
  end.

(** Whether the text a selection string leads with is ASCII text, on
    which [Py.int] is [int], and the length of that text. *)
Definition leading_isascii (s : string) : bool :=
  match Py.getitem (Py.split "." s) 0 with
  | Some head => Py.isascii head
  | None => false
  end.

Definition leading_length (s : string) : nat :=
  match Py.getitem (Py.split "." s) 0 with
  | Some head => String.length head
  | None => 0%nat
  end.

(** A selection string whose leading text [int] reads as [Py.int]
    does: ASCII text within the interpreter's limit on digits. *)
Definition plain_leading (s : string) : Prop :=
  leading_isascii s = true /\ (leading_length s <= Py.int_max_str_digits)%nat.

(** The filter records persisted under [CONF_FILTER], none when the key
    was never configured. *)
Definition persisted_filters (w : World) (fs : list Filter) : Prop :=
  match entry_options w !! CONF_FILTER with
  | None => fs = []
  | Some (VList l) => heap w !! l = Some (EDict <$> fs)
  | Some (VScalar _) => False
  end.


(** The step after each step of the wizard. *)
Definition next_step (step_id : string) : string :=
  if String.eqb step_id "init" then "domain_entity_filters"
  else if String.eqb step_id "domain_entity_filters" then "general_filters"
  else if String.eqb step_id "general_filters" then "events"
  else step_id.

(** Whether a submission to a step is one that adds (a filter, an event
    name) and so has the step shown again: the field that tells is the
    entity id in [general_filters] and the new-event field in [events]. *)
Definition adds_one (step_id : string) (ui : gmap string value) : bool :=
  (String.eqb step_id "general_filters" && bool_decide (is_Some (ui !! CONF_ENTITY_ID)))
  || (String.eqb step_id "events" && bool_decide (is_Some (ui !! ADD_NEW_EVENT))).

End OptionsFlow.

(** ** The connection set-up flow, [ConfigFlow] *)

Module ConfigFlow.

(** What the discovery call of [rest_api] reports. *)
Record Info := mkInfo {
  location_name : string;
  uuid : string
}.

(** An entry of the host's registry. *)
Record ConfigEntry := mkEntry {
  entry_unique_id : option string;
  entry_title : string;
  entry_data : gmap string value
}.

(** The registry and the flow's own unique id ([self.unique_id]). *)
Record World := mkWorld {
  entries : list ConfigEntry;
  unique_id : option string
}.

Definition DATA_SCHEMA : list field :=
  [ Required CONF_HOST IsStr;
    Optional CONF_PORT (Given (VScalar (SInt 8123))) IsInt;
    Required CONF_ACCESS_TOKEN IsStr;
    Optional CONF_SECURE (Given (VScalar (SBool true))) IsBool;
    Optional CONF_VERIFY_SSL (Given (VScalar (SBool true))) IsBool ].

Local Open Scope py_scope.

(** [try: c except: handler else: orelse]: the handlers do not guard
    [orelse]. *)
Definition try_except_else {S A B} (c : M S A) (handler : exn -> M S B)
    (orelse : A -> M S B) : M S B :=
  fun s => match c s with
           | (Ok a, s') => orelse a s'
           | (Raise e, s') => handler e s'
           end.

(** [conf[k]] *)
Definition item (conf : gmap string value) (k : string) : M World value :=
  or_raise KeyError (conf !! k).

(** Modelled from the spec: the host framework's side of the flow
    ([homeassistant.config_entries], not part of this repository): the
    unique id is recorded on the flow, a flow whose unique id an entry
    already carries is aborted, and a created entry is registered under
    the flow's unique id. *)
Definition async_set_unique_id (uid : string) : M World unit :=
  modify (fun w => mkWorld (entries w) (Some uid)).

Definition _abort_if_unique_id_configured : M World unit :=
  w <- get ;;
  match unique_id w with
  | None => ret tt
  | Some uid =>
      if bool_decide (Exists (fun e => entry_unique_id e = Some uid) (entries w))
      then raise (AbortFlow "already_configured")
      else ret tt
  end.

Definition async_create_entry (title : string) (data : gmap string value)
    : M World FlowResult :=
  ret (CreateEntry title data).

Definition finish (r : FlowResult) : M World unit :=
  match r with
  | CreateEntry title data =>
      modify (fun w =>
        mkWorld (entries w ++ [mkEntry (unique_id w) title data]) (unique_id w))
  | ShowForm _ _ _ => ret tt
  end.

Section Flow.

(** The discovery call, by what it does on the five arguments after
    [hass]: it reports or raises.  [OSError] stands for that class and
    its subclasses; [ApiProblem], [CannotConnect] and [InvalidAuth]
    are unrelated classes outside it, derived from [Exception]. *)
Variable async_get_discovery_info :
  value -> value -> value -> value -> value -> result Info.

Definition call_discovery (host port secure token verify_ssl : value)
    : M World Info :=
  fun w => (async_get_discovery_info host port secure token verify_ssl, w).

(** [validate_input], lines 62-76: title and uuid. *)
Definition validate_input (conf : gmap string value)
    : M World (string * string) :=
  info <- try_except
            (host <- item conf CONF_HOST ;;
             port <- item conf CONF_PORT ;;
             secure <- item conf CONF_SECURE ;;
             token <- item conf CONF_ACCESS_TOKEN ;;
             verify_ssl <- item conf CONF_VERIFY_SSL ;;
             call_discovery host port secure token verify_ssl)
            (fun e => match e with
                      | OSError => raise CannotConnect
                      | _ => raise e
                      end) ;;
  ret (location_name info, uuid info).

(** The [except] clauses of lines 97-105, in their order: the code set
    by the clause that catches [e], none when no clause does.  The last
    clause, [except Exception], lets the classes outside [Exception]
    through. *)
Definition error_code (e : exn) : option string :=
  match e with
  | ApiProblem => Some "api_problem"
  | CannotConnect => Some "cannot_connect"
  | InvalidAuth => Some "invalid_auth"
  | _ => if is_exception e then Some "unknown" else None
  end.

(** [async_step_user], lines 91-113. *)
Definition async_step_user (user_input : option (gmap string value))
    : M World FlowResult :=
  match user_input with
  | Some ui =>
      r <- try_except_else (validate_input ui)
             (fun e => match error_code e with
                       | Some code =>
                           ret (inl (<["base" := code]> (∅ : gmap string string)))
                       | None => raise e
                       end)
             (fun info =>
                async_set_unique_id (snd info) ;;;
                _abort_if_unique_id_configured ;;;
                r <- async_create_entry (fst info) ui ;;
                ret (inr r)) ;;
      match r with
      | inr created => ret created
      | inl errors => ret (ShowForm "user" DATA_SCHEMA errors)
      end
  | None => ret (ShowForm "user" DATA_SCHEMA ∅)
  end.

(** One set-up attempt against the registry [es]: a new flow, the
    user's submission, and the registration of what it creates. *)
Definition setup (ui : gmap string value) (es : list ConfigEntry)
    : result FlowResult * list ConfigEntry :=
  let '(r, w) :=
    (r <- async_step_user (Some ui) ;; finish r ;;; ret r) (mkWorld es None) in
  (r, entries w).

(** A submission that carries the five fields of the form (the schema
    fills in the defaults) and on which the discovery call gives [r]. *)
Definition discovery_gives (ui : gmap string value) (r : result Info) : Prop :=
  exists host port secure token verify_ssl,
    ui !! CONF_HOST = Some host /\ ui !! CONF_PORT = Some port
    /\ ui !! CONF_SECURE = Some secure /\ ui !! CONF_ACCESS_TOKEN = Some token
    /\ ui !! CONF_VERIFY_SSL = Some verify_ssl
    /\ async_get_discovery_info host port secure token verify_ssl = r.

End Flow.

(** The four failure kinds of the spec's error mapping and the code each
    is to show. *)
Inductive failure :=
  | Connectivity
  | ApiRejection
  | AuthFailure
  | Unexpected.

Definition failure_of (e : exn) : failure :=
  match e with
  | OSError | CannotConnect => Connectivity
  | ApiProblem => ApiRejection
  | InvalidAuth => AuthFailure
  | _ => Unexpected
  end.

Definition code_of (f : failure) : string :=
  match f with
  | Connectivity => "cannot_connect"
  | ApiRejection => "api_problem"
  | AuthFailure => "invalid_auth"
  | Unexpected => "unknown"
  end.

End ConfigFlow.

(** ** Sample data *)

Module Sample.
Import OptionsFlow.

Definition filter_A : Filter :=
  mkFilter (SStr "sensor.power") (SStr "W") (SFloat "1500.0") SNone.
Definition filter_B : Filter :=
  mkFilter (SStr "sensor.temp.2") (SStr "C") (SFloat "18.5") (SFloat "25.0").
Definition filter_C : Filter :=
  mkFilter (SStr "3.humidity") SNone SNone (SFloat "70.0").

Definition display_B : string := _filter_str 1 filter_B.
Definition display_C : string := _filter_str 2 filter_C.

(** A wizard at the [general_filters] form: its filter list, object 0,
    is [A, B, C]; object 1 is the selection the user submits; the draft
    is still empty. *)
Definition abc_world (submitted : list elem) : World :=
  mkWorld [[EDict filter_A; EDict filter_B; EDict filter_C]; submitted]
          ∅ (Some ∅) (VList 0%nat) None (Some ∅).

Definition pick : gmap string value := {[CONF_FILTER := VList 1%nat]}.

(** An entry whose persisted include-domains list is empty, whose
    include-entities list names an entity the remote no longer has, and
    whose exclude-entities were never configured. *)
Definition stale_world : World :=
  init_handler [[]; [EStr "sensor.gone"; EStr "light.hall"]]
    (<[CONF_INCLUDE_DOMAINS := VList 0%nat]>
       (<[CONF_INCLUDE_ENTITIES := VList 1%nat]> ∅))
    (Some {["light.hall"; "switch.pump"]}).

(** The end-to-end scenario of the spec: the entry has no options yet;
    objects 0 and 1 are the lists the second and the last submission
    carry. *)
Definition scenario_world : World :=
  init_handler [[EStr "sensor"]; [EStr "state_changed"]] ∅ (Some ∅).

Definition scenario_inputs : list (gmap string value) :=
  [ {[CONF_ENTITY_PREFIX := VScalar (SStr "ha_")]};
    {[CONF_INCLUDE_DOMAINS := VList 0%nat]};
    ∅;
    {[CONF_SUBSCRIBE_EVENTS := VList 1%nat]} ].

(** A run that adds the event name "foo" twice: a new wizard over an
    entry without options; the store holds the two selection lists that
    the last two submissions carry, each equal to the pre-selection of
    the form it answers. *)
Definition twice_world : World :=
  init_handler [[EStr "foo"]; [EStr "foo"; EStr "foo"]] ∅ (Some ∅).

Definition twice_adds : list (gmap string value) :=
  [ ∅; ∅; ∅;
    {[ADD_NEW_EVENT := VScalar (SStr "foo")]};
    <[ADD_NEW_EVENT := VScalar (SStr "foo")]>
      {[CONF_SUBSCRIBE_EVENTS := VList 0%nat]} ].

Definition twice_inputs : list (gmap string value) :=
  twice_adds ++ [ {[CONF_SUBSCRIBE_EVENTS := VList 1%nat]} ].

(** A wizard at the events form with an empty event set and draft; the
    store holds the selections of three submissions. *)
Definition events_world : World :=
  mkWorld [[]; [EStr "foo"]; [EStr "foo"; EStr "foo"]] ∅ (Some ∅)
          (VScalar SNone) (Some ∅) (Some ∅).

Definition add_foo (selection : loc) : gmap string value :=
  <[ADD_NEW_EVENT := VScalar (SStr "foo")]>
    {[CONF_SUBSCRIBE_EVENTS := VList selection]}.

(** An entry whose persisted filter list, object 0, is [A], and a run
    that adds one filter and is then abandoned. *)
Definition one_filter_world : World :=
  init_handler [[EDict filter_A]] {[CONF_FILTER := VList 0%nat]} (Some ∅).

Definition add_then_abandon : list (gmap string value) :=
  [ ∅; ∅; {[CONF_ENTITY_ID := VScalar (SStr "sensor.door.1")]} ].

(** The same form submitted with a new filter's fields filled in. *)
Definition add_one : gmap string value :=
  <[CONF_ENTITY_ID := VScalar (SStr "sensor.door.1")]>
    (<[CONF_ABOVE := VScalar (SFloat "5.0")]> pick).
(** A remote that answers at "ha.local", refuses the token at
    "locked.local" and is unreachable elsewhere. *)
Definition sample_discovery (host port secure token verify_ssl : value)
    : result ConfigFlow.Info :=
  match host with
  | VScalar (SStr h) =>
      if String.eqb h "ha.local" then Ok (ConfigFlow.mkInfo "Home" "4f1c-77aa")
      else if String.eqb h "locked.local" then Raise InvalidAuth
      else Raise OSError
  | _ => Raise TypeError
  end.

(** A registry with two entries that carry no unique id. *)
Definition two_without_id : list ConfigFlow.ConfigEntry :=
  [ConfigFlow.mkEntry None "Cabin" ∅; ConfigFlow.mkEntry None "Boat" ∅].

Definition credentials (host token : string) : gmap string value :=
  <[CONF_HOST := VScalar (SStr host)]>
    (<[CONF_PORT := VScalar (SInt 8123)]>
       (<[CONF_ACCESS_TOKEN := VScalar (SStr token)]>
          (<[CONF_SECURE := VScalar (SBool true)]>
             (<[CONF_VERIFY_SSL := VScalar (SBool true)]> ∅)))).
End Sample.

(** * Properties *)

(** ** Decimal text and [int] *)

Module PyFacts.
Import Py.

Lemma digit_val_chr (d : N) : (d < 10)%N -> digit_val (digit_chr d) = Some (Z.of_N d).
Proof.
  intros Hd. unfold digit_val, digit_chr.
  rewrite N_ascii_embedding by lia.
  replace ((48 <=? 48 + d)%N && (48 + d <=? 57)%N) with true.
  - f_equal. lia.
  - symmetry. apply andb_true_iff. split; apply N.leb_le; lia.
Qed.

Lemma digit_not_space (c : ascii) : is_Some (digit_val c) -> is_space c = false.
Proof.
  unfold digit_val, is_space. cbv zeta.
  destruct ((48 <=? N_of_ascii c)%N && (N_of_ascii c <=? 57)%N) eqn:E;
    intros [d Hd]; [|discriminate].
  apply andb_true_iff in E as [E1 E2].
  apply N.leb_le in E1, E2.
  apply orb_false_iff. split.
  - apply andb_false_iff. right. apply N.leb_gt. lia.
  - apply N.eqb_neq. lia.
Qed.

Lemma digit_is_ascii (c : ascii) : is_Some (digit_val c) -> (N_of_ascii c <? 128)%N = true.
Proof.
  unfold digit_val. cbv zeta.
  destruct ((48 <=? N_of_ascii c)%N && (N_of_ascii c <=? 57)%N) eqn:E;
    intros [d Hd]; [|discriminate].
  apply andb_true_iff in E as [_ E2]. apply N.leb_le in E2.
  apply N.ltb_lt. lia.
Qed.

Lemma digits_only_isascii (s : string) : digits_only s -> isascii s = true.
Proof.
  unfold isascii. induction s as [|c s IH]; simpl; [done|]. intros [Hc Hs].
  by rewrite (digit_is_ascii c Hc), (IH Hs).
Qed.

Lemma digit_not_char (c : ascii) (x : ascii) :
  is_Some (digit_val c) -> (N_of_ascii x < 48)%N \/ (57 < N_of_ascii x)%N ->
  Ascii.eqb c x = false.
Proof.
  unfold digit_val. cbv zeta.
  destruct ((48 <=? N_of_ascii c)%N && (N_of_ascii c <=? 57)%N) eqn:E;
    intros [d Hd] Hx; [|discriminate].
  apply andb_true_iff in E as [E1 E2].
  apply N.leb_le in E1, E2.
  apply Ascii.eqb_neq. intros ->. lia.
Qed.

Lemma digits_value_app (s1 s2 : string) (acc : Z) :
  digits_value acc (s1 +:+ s2) = digits_value (digits_value acc s1) s2.
Proof. revert acc. induction s1 as [|c s1 IH]; intros acc; simpl; [done|]. apply IH. Qed.

Lemma digits_only_app (s1 s2 : string) :
  digits_only s1 -> digits_only s2 -> digits_only (s1 +:+ s2).
Proof. induction s1 as [|c s1 IH]; simpl; [done|]. intros [? ?] ?. split; auto. Qed.

Lemma int_digits_digits_only (s : string) (acc : Z) :
  digits_only s -> int_digits acc s = Some (digits_value acc s).
Proof.
  revert acc. induction s as [|c s IH]; intros acc; simpl; [done|].
  intros [[d Hd] Hs]. rewrite Hd. simpl. by apply IH.
Qed.

Lemma lstrip_digits (s : string) : digits_only s -> lstrip s = s.
Proof.
  destruct s as [|c s]; simpl; [done|]. intros [Hc _].
  by rewrite (digit_not_space c Hc).
Qed.

Lemma rstrip_digits (s : string) : digits_only s -> rstrip s = s.
Proof.
  induction s as [|c s IH]; simpl; [done|]. intros [Hc Hs].
  rewrite (IH Hs). rewrite (digit_not_space c Hc). by destruct s.
Qed.

(** [int] reads a non-empty text of digits as the number it writes. *)
Lemma int_digits_only (s : string) :
  digits_only s -> s <> EmptyString -> int s = Some (digits_value 0 s).
Proof.
  intros Hs Hne. unfold int, strip.
  rewrite (lstrip_digits s Hs), (rstrip_digits s Hs).
  destruct s as [|c s]; [done|]. destruct Hs as [Hc Hs].
  rewrite (digit_not_char c "-" Hc) by (left; vm_compute; reflexivity).
  rewrite (digit_not_char c "+" Hc) by (left; vm_compute; reflexivity).
  unfold int_body. destruct Hc as [d Hd]. rewrite Hd.
  rewrite (int_digits_digits_only s d Hs). simpl. rewrite Hd. simpl.
  by replace (10 * 0 + d) with d by lia.
Qed.

Lemma string_app_assoc (a b c : string) : (a +:+ b) +:+ c = a +:+ (b +:+ c).
Proof. induction a as [|x a IH]; [done|]. change (String x ((a +:+ b) +:+ c) = String x (a +:+ (b +:+ c))). by f_equal. Qed.

Lemma digits_aux_acc (fuel : nat) (n : N) (acc : string) :
  digits_aux fuel n acc = digits_aux fuel n EmptyString +:+ acc.
Proof.
  revert n acc. induction fuel as [|fuel IH]; intros n acc; simpl; [done|].
  destruct (n <? 10)%N; [done|].
  rewrite (IH _ (String _ acc)), (IH _ (String _ EmptyString)).
  by rewrite string_app_assoc.
Qed.

Lemma digits_aux_nonempty (fuel : nat) (n : N) (acc : string) :
  acc <> EmptyString -> digits_aux fuel n acc <> EmptyString.
Proof.
  revert n acc. induction fuel as [|fuel IH]; intros n acc Hacc; simpl; [done|].
  destruct (n <? 10)%N; [done|]. by apply IH.
Qed.

Lemma digits_aux_digits_only (fuel : nat) (n : N) (acc : string) :
  digits_only acc -> digits_only (digits_aux fuel n acc).
Proof.
  revert n acc. induction fuel as [|fuel IH]; intros n acc Hacc; simpl; [done|].
  assert (digits_only (String (digit_chr (n mod 10)) acc)) as Hacc'.
  { split; [|done]. rewrite digit_val_chr; [done|].
    apply N.mod_upper_bound. lia. }
  destruct (n <? 10)%N; [done|]. by apply IH.
Qed.

(** With a digit of fuel for each decimal digit, the text writes [n]. *)
Lemma digits_aux_value (fuel : nat) (n : N) :
  (n < 10 ^ N.of_nat fuel)%N ->
  digits_value 0 (digits_aux fuel n EmptyString) = Z.of_N n.
Proof.
  revert n. induction fuel as [|fuel IH]; intros n Hn.
  - simpl in *. lia.
  - assert (n mod 10 < 10)%N as Hm by (apply N.mod_upper_bound; lia).
    assert (n = 10 * (n / 10) + n mod 10)%N as Hdm by (apply N.div_mod; lia).
    simpl digits_aux. destruct (n <? 10)%N eqn:E.
    + apply N.ltb_lt in E. simpl. rewrite digit_val_chr by done. simpl.
      rewrite N.mod_small by done. lia.
    + apply N.ltb_ge in E. rewrite digits_aux_acc, digits_value_app.
      rewrite IH.
      * simpl. rewrite digit_val_chr by done. simpl. lia.
      * rewrite Nat2N.inj_succ, N.pow_succ_r' in Hn.
        apply N.Div0.div_lt_upper_bound. lia.
Qed.

Lemma str_of_N_fuel (n : N) : (n < 10 ^ N.of_nat (S (N.to_nat (N.log2 n))))%N.
Proof.
  rewrite Nat2N.inj_succ, N2Nat.id.
  destruct (N.eq_dec n 0%N) as [->|Hn]; [done|].
  pose proof (N.log2_spec n ltac:(lia)) as [_ H2].
  eapply N.lt_le_trans; [exact H2|].
  apply N.pow_le_mono_l. lia.
Qed.

(** [int(str(n)) == n]: the fuel of [str_of_N] is enough. *)
Lemma int_str_of_N (n : N) : int (str_of_N n) = Some (Z.of_N n).
Proof.
  unfold str_of_N. rewrite int_digits_only.
  - by rewrite digits_aux_value by apply str_of_N_fuel.
  - by apply digits_aux_digits_only.
  - simpl. destruct (n <? 10)%N; [done|]. by apply digits_aux_nonempty.
Qed.

Lemma str_of_N_digits_only (n : N) : digits_only (str_of_N n).
Proof. by apply digits_aux_digits_only. Qed.

Lemma int_str_of_int (z : Z) : 0 <= z -> int (str_of_int z) = Some z.
Proof.
  intros Hz. unfold str_of_int.
  destruct (z <? 0) eqn:E; [apply Z.ltb_lt in E; lia|].
  rewrite int_str_of_N. f_equal. lia.
Qed.

Lemma str_of_int_isascii (z : Z) : 0 <= z -> isascii (str_of_int z) = true.
Proof.
  intros Hz. unfold str_of_int.
  destruct (z <? 0) eqn:E; [apply Z.ltb_lt in E; lia|].
  apply digits_only_isascii, str_of_N_digits_only.
Qed.

(** The text before the first separator of [d.rest] is [d] when [d] is
    digits. *)
Lemma split_digits_head (d rest : string) :
  digits_only d ->
  split "." (d +:+ String "." rest) = d :: split "." rest.
Proof.
  induction d as [|c d IH]; simpl; [done|]. intros [Hc Hd].
  rewrite (digit_not_char c "." Hc) by (left; vm_compute; reflexivity).
  by rewrite (IH Hd).
Qed.

Lemma split_nonempty (sep : ascii) (s : string) : split sep s <> [].
Proof.
  induction s as [|c s IH]; simpl; [done|].
  destruct (Ascii.eqb c sep); [done|]. by destruct (split sep s).
Qed.

Lemma getitem_head {A} (x : A) (l : list A) : getitem (x :: l) 0 = Some x.
Proof. reflexivity. Qed.

(** In range, [l[i]] is the element at position [i]. *)
Lemma getitem_lookup {A} (l : list A) (i : nat) (x : A) :
  l !! i = Some x -> getitem l (Z.of_nat i) = Some x.
Proof.
  intros H. unfold getitem.
  destruct (0 <=? Z.of_nat i) eqn:E; [|apply Z.leb_gt in E; lia].
  by rewrite Nat2Z.id.
Qed.

(** *** The built-ins on sample texts *)

Example str_of_int_12 : str_of_int 12 = "12".
Proof. reflexivity. Qed.
Example str_of_int_1000 : str_of_int 1000 = "1000".
Proof. reflexivity. Qed.
Example int_ok : int " +1_000 " = Some 1000.
Proof. reflexivity. Qed.
Example int_neg : int "-07" = Some (-7).
Proof. reflexivity. Qed.
Example int_bad : int "1__0" = None /\ int "" = None /\ int "1 0" = None.
Proof. repeat split. Qed.
Example int_separator : int (String (ascii_of_N 28) "2") = None.
Proof. reflexivity. Qed.
Example split_ex : split "." "sensor.a.b" = ["sensor"; "a"; "b"].
Proof. reflexivity. Qed.
Example split_none : split "." "abc" = ["abc"] /\ split "." "" = [""].
Proof. split; reflexivity. Qed.
Example getitem_neg : getitem [1; 2; 3] (-1) = Some 3 /\ getitem [1; 2; 3] 3 = None.
Proof. split; reflexivity. Qed.

End PyFacts.

(** ** Computations *)

Section MonadFacts.
Context {S : Type}.

Lemma bind_ok {A B} (c : M S A) (k : A -> M S B) (s s' : S) (a : A) :
  c s = (Ok a, s') -> bind c k s = k a s'.
Proof. intros H. unfold bind. by rewrite H. Qed.

Lemma bind_raise {A B} (c : M S A) (k : A -> M S B) (s s' : S) (e : exn) :
  c s = (Raise e, s') -> bind c k s = (Raise e, s').
Proof. intros H. unfold bind. by rewrite H. Qed.

(** A loop whose body leaves the state alone yields the bodies' results. *)
Lemma mapM_ok {A B} (f : A -> M S B) (l : list A) (ys : list B) (s : S) :
  Forall2 (fun x y => f x s = (Ok y, s)) l ys -> mapM f l s = (Ok ys, s).
Proof.
  induction 1 as [|x y l ys Hxy _ IH]; simpl; [done|].
  rewrite (bind_ok _ _ _ _ _ Hxy). by rewrite (bind_ok _ _ _ _ _ IH).
Qed.

Lemma mapM_ok_fmap {A B} (f : A -> M S B) (g : A -> B) (l : list A) (s : S) :
  (forall x, x ∈ l -> f x s = (Ok (g x), s)) -> mapM f l s = (Ok (g <$> l), s).
Proof.
  intros H. apply mapM_ok. induction l as [|x l IH]; simpl; constructor.
  - apply H. by left.
  - apply IH. intros y Hy. apply H. by right.
Qed.
End MonadFacts.

(** ** The options wizard *)

Module OptionsFlowFacts.
Import Py PyFacts OptionsFlow.

Lemma filter_strs_from_lookup (fs : list Filter) (k : Z) (i : nat) (s : string) :
  filter_strs_from k fs !! i = Some s ->
  exists f, fs !! i = Some f /\ s = _filter_str (k + Z.of_nat i) f.
Proof.
  revert k i. induction fs as [|f fs IH]; intros k i; simpl; [done|].
  destruct i as [|i]; simpl.
  - intros [= <-]. exists f. split; [done|]. f_equal. lia.
  - intros H. destruct (IH _ _ H) as (g & Hg & ->). exists g. split; [done|].
    f_equal. lia.
Qed.

Lemma filter_strs_from_length (fs : list Filter) (k : Z) :
  length (filter_strs_from k fs) = length fs.
Proof. revert k. induction fs as [|f fs IH]; intros k; simpl; [done|]. by rewrite IH. Qed.

Lemma filter_strs_from_app (fs gs : list Filter) (k : Z) :
  filter_strs_from k (fs ++ gs)
  = filter_strs_from k fs ++ filter_strs_from (k + Z.of_nat (length fs)) gs.
Proof.
  revert k. induction fs as [|f fs IH]; intros k;
    cbn [filter_strs_from app length].
  - f_equal. lia.
  - rewrite IH. do 3 f_equal. lia.
Qed.

(** The text before the first "." of a display string is its number. *)
Lemma filter_str_head (i : Z) (f : Filter) :
  0 <= i ->
  exists t, split "." (_filter_str i f) = str_of_int (i + 1) :: t.
Proof.
  intros Hi. unfold _filter_str.
  change (". " +:+ ?x) with (String "." (String " " x)).
  eexists. apply split_digits_head.
  unfold str_of_int. destruct (i + 1 <? 0) eqn:E; [apply Z.ltb_lt in E; lia|].
  apply str_of_N_digits_only.
Qed.

(** Reverse-parsing the display string of position [i] gives [i]. *)
Lemma selected_index_filter_str (i : nat) (f : Filter) (w : World) :
  selected_index (EStr (_filter_str (Z.of_nat i) f)) w = (Ok (Z.of_nat i), w).
Proof.
  unfold selected_index.
  destruct (filter_str_head (Z.of_nat i) f (Nat2Z.is_nonneg i)) as [t Ht].
  rewrite Ht, getitem_head.
  unfold or_raise at 1, bind at 1, ret at 1.
  rewrite str_of_int_isascii by lia.
  rewrite int_str_of_int by lia.
  unfold or_raise, bind, ret. do 2 f_equal. lia.
Qed.

(** *** List objects *)

Lemma get_or_new_list_eq (d : gmap string value) (k : string) (w : World) :
  get_or_new_list d k w
  = (Ok (match d !! k with Some v => v | None => VList (length (heap w)) end),
     set_heap (heap w ++ [[]]) w).
Proof. reflexivity. Qed.

Lemma alloc_eq (xs : list elem) (w : World) :
  alloc xs w = (Ok (length (heap w)), set_heap (heap w ++ [xs]) w).
Proof. reflexivity. Qed.

Lemma deref_eq (l : loc) (xs : list elem) (w : World) :
  heap w !! l = Some xs -> deref l w = (Ok xs, w).
Proof. intros H. unfold deref, bind, get. simpl. by rewrite H. Qed.

(** What [d.get(k, [])] hands over denotes, in the grown store, the
    submitted list. *)
Lemma iterate_submitted (ui : gmap string value) (k : string) (w : World)
    (xs : list elem) :
  submitted_list (heap w) ui k = Some xs ->
  iterate (match ui !! k with Some v => v | None => VList (length (heap w)) end)
          (set_heap (heap w ++ [[]]) w)
  = (Ok xs, set_heap (heap w ++ [[]]) w).
Proof.
  unfold submitted_list. destruct (ui !! k) as [[a|l]|]; [done| |].
  - intros H. apply deref_eq. simpl. by apply lookup_app_l_Some.
  - intros [= <-]. apply deref_eq. simpl.
    by rewrite lookup_app_r, Nat.sub_diag.
Qed.

(** *** The finalize branch of [general_filters] *)

(** The selections are display strings numbered [i + 1] for positions
    [i] of the wizard's list (whatever record the text shows): the
    draft gets the records at those positions, in the order submitted. *)
Lemma finalize_filters_picks (w : World) (ui : gmap string value)
    (sel : list (nat * Filter)) (lf : loc) (fl picked : list elem)
    (opts : gmap string value) :
  submitted_list (heap w) ui CONF_FILTER
    = Some ((fun p => EStr (_filter_str (Z.of_nat p.1) p.2)) <$> sel) ->
  filters w = VList lf ->
  heap w !! lf = Some fl ->
  options w = Some opts ->
  Forall2 (fun p x => fl !! p.1 = Some x) sel picked ->
  finalize_filters ui w = (Ok tt, after_finalize w opts picked).
Proof.
  intros Hsub Hf Hfl Hopts Hpick. unfold finalize_filters.
  rewrite (bind_ok _ _ _ _ _ (get_or_new_list_eq _ _ _)).
  rewrite (bind_ok _ _ _ _ _ (iterate_submitted _ _ _ _ Hsub)).
  set (w1 := set_heap (heap w ++ [[]]) w).
  assert (mapM selected_index
            ((fun p => EStr (_filter_str (Z.of_nat p.1) p.2)) <$> sel) w1
          = (Ok ((fun p => Z.of_nat p.1) <$> sel), w1)) as Hidx.
  { apply mapM_ok, Forall2_fmap, Forall_Forall2_diag, Forall_forall.
    intros [i f] _. apply selected_index_filter_str. }
  rewrite (bind_ok _ _ _ _ _ Hidx).
  assert (mapM (fun i => w' <- get ;; subscript (filters w') i)%py
            ((fun p => Z.of_nat p.1) <$> sel) w1
          = (Ok picked, w1)) as Hpicked.
  { apply mapM_ok, Forall2_fmap_l.
    eapply Forall2_impl; [exact Hpick|].
    intros [i f] x Hx. simpl in *.
    unfold bind at 1. simpl. rewrite Hf.
    unfold subscript. 
    rewrite (bind_ok _ _ _ _ _ (deref_eq lf fl w1 ltac:(simpl; by apply lookup_app_l_Some))).
    by rewrite (getitem_lookup _ _ _ Hx). }
  rewrite (bind_ok _ _ _ _ _ Hpicked).
  rewrite (bind_ok _ _ _ _ _ (alloc_eq _ _)).
  unfold bind, get, or_raise, modify, ret. simpl. rewrite Hopts. simpl.
  unfold after_finalize, set_options. simpl.
  rewrite length_app, <- app_assoc. simpl.
  by replace (length (heap w) + 1)%nat with (Datatypes.S (length (heap w))) by lia.
Qed.

Lemma stored_filters_after_finalize (w : World) (opts : gmap string value)
    (picked : list elem) :
  stored_filters (after_finalize w opts picked) = Some picked.
Proof.
  unfold stored_filters, after_finalize. simpl.
  rewrite lookup_insert_eq.
  rewrite lookup_app_r by lia.
  by replace (Datatypes.S (length (heap w)) - length (heap w))%nat with 1%nat by lia.
Qed.

(** *** What a step leaves alone *)

Lemma extends_refl (w : World) : extends w w.
Proof. repeat split. exists []. by rewrite app_nil_r. Qed.

Lemma extends_trans (w1 w2 w3 : World) : extends w1 w2 -> extends w2 w3 -> extends w1 w3.
Proof.
  intros (?&?&?&e1&?) (?&?&?&e2&?). repeat split; try congruence.
  exists (e1 ++ e2). rewrite app_assoc. congruence.
Qed.

Lemma bind_extends {A B} (c : M World A) (k : A -> M World B) (w0 w : World) :
  extends w0 (c w).2 -> (forall a w', extends w0 w' -> extends w0 (k a w').2) ->
  extends w0 (bind c k w).2.
Proof.
  intros Hc Hk. unfold bind. destruct (c w) as [[a|e] w']; simpl in *; auto.
Qed.

Lemma bind_state {S A B} (c : M S A) (k : A -> M S B) (s : S) :
  (c s).2 = s -> (forall a, (k a s).2 = s) -> (bind c k s).2 = s.
Proof.
  intros Hc Hk. unfold bind. destruct (c s) as [[a|e] s']; simpl in *; subst; auto.
Qed.

Lemma deref_state (l : loc) (w : World) : (deref l w).2 = w.
Proof. unfold deref, bind, get, or_raise. simpl. by destruct (heap w !! l). Qed.

Lemma iterate_state (v : value) (w : World) : (iterate v w).2 = w.
Proof.
  destruct v as [[| | | |s]|l]; try done; [|apply deref_state].
  simpl. by destruct (isascii s).
Qed.

Lemma truthy_state (v : value) (w : World) : (truthy v w).2 = w.
Proof.
  destruct v as [a|l]; [done|]. apply bind_state; [apply deref_state|done].
Qed.

Lemma mapM_state {A B} (f : A -> M World B) (xs : list A) (w : World) :
  (forall x, (f x w).2 = w) -> (mapM f xs w).2 = w.
Proof.
  intros Hf. induction xs as [|x xs IH]; [done|].
  apply bind_state; [apply Hf|]. intros y. by apply bind_state.
Qed.

Lemma set_of_state (v : value) (w : World) : (set_of v w).2 = w.
Proof.
  apply bind_state; [apply iterate_state|]. intros xs.
  apply bind_state; [|done]. apply mapM_state. by intros [].
Qed.

Lemma default_state (conf : string) (w : World) : (_default conf w).2 = w.
Proof.
  apply bind_state; [done|]. intros w0.
  apply bind_state; [apply truthy_state|done].
Qed.

Lemma alloc_extends (xs : list elem) (w0 w : World) :
  extends w0 w -> extends w0 (alloc xs w).2.
Proof.
  intros H. eapply extends_trans; [exact H|]. repeat split. by exists [xs].
Qed.

(** Rendering the events form writes neither the draft nor the wizard's
    filter list, and only adds objects to the store. *)
Lemma events_entry_frame (w0 w : World) :
  extends w0 w -> extends w0 (async_step_events None w).2.
Proof.
  intros H0. unfold async_step_events.
  apply bind_extends; [done|]. intros w1 w' Hw'.
  apply bind_extends; [by rewrite truthy_state|]. intros t w2 Hw2.
  apply bind_extends.
  { destruct t; [done|]. apply bind_extends; [by apply alloc_extends|done]. }
  intros src w3 Hw3.
  apply bind_extends; [by rewrite set_of_state|]. intros evs w4 Hw4.
  apply bind_extends.
  { eapply extends_trans; [exact Hw4|]. repeat split. exists []. by rewrite app_nil_r. }
  intros _ w5 Hw5.
  apply bind_extends; [by rewrite default_state|]. by intros d w6 Hw6.
Qed.

Import Sample.

Lemma stored_filters_extends (w w' : World) (xs : list elem) :
  extends w w' -> stored_filters w = Some xs -> stored_filters w' = Some xs.
Proof.
  intros (Ho & _ & _ & ext & Hh). unfold stored_filters. rewrite Ho, Hh.
  destruct (options w) as [opts|]; [|done].
  destruct (opts !! CONF_FILTER) as [[a|l]|]; try done.
  apply lookup_app_l_Some.
Qed.

(** The whole step in its finalize branch: the draft's filter entry is
    the list of picked records, whatever entering the events step does
    afterwards. *)
Lemma general_filters_finalize (w : World) (ui : gmap string value)
    (sel : list (nat * Filter)) (lf : loc) (fl picked : list elem)
    (opts : gmap string value) :
  ui !! CONF_ENTITY_ID = None ->
  submitted_list (heap w) ui CONF_FILTER
    = Some ((fun p => EStr (_filter_str (Z.of_nat p.1) p.2)) <$> sel) ->
  filters w = VList lf ->
  heap w !! lf = Some fl ->
  options w = Some opts ->
  Forall2 (fun p x => fl !! p.1 = Some x) sel picked ->
  stored_filters (async_step_general_filters (Some ui) w).2 = Some picked.
Proof.
  intros Hid Hsub Hf Hfl Hopts Hpick. unfold async_step_general_filters.
  rewrite Hid.
  rewrite (bind_ok _ _ _ _ _
             (finalize_filters_picks _ _ _ _ _ _ _ Hsub Hf Hfl Hopts Hpick)).
  eapply stored_filters_extends;
    [apply events_entry_frame, extends_refl|apply stored_filters_after_finalize].
Qed.

(** C1, as amended.  With the wizard's filter list [A, B, C], a finalize
    submission (entity-id field absent) that selects the display strings
    of B and C stores the records they number, in the order submitted:
    [B, C] when B's string comes first, [C, B] when C's does. *)
Theorem finalize_stores_in_submitted_order (w : World) (ui : gmap string value)
    (lf : loc) (A B C : Filter) (opts : gmap string value) :
  ui !! CONF_ENTITY_ID = None ->
  filters w = VList lf ->
  heap w !! lf = Some [EDict A; EDict B; EDict C] ->
  options w = Some opts ->
  (submitted_list (heap w) ui CONF_FILTER
     = Some [EStr (_filter_str 1 B); EStr (_filter_str 2 C)] ->
   stored_filters (async_step_general_filters (Some ui) w).2
     = Some [EDict B; EDict C])
  /\ (submitted_list (heap w) ui CONF_FILTER
        = Some [EStr (_filter_str 2 C); EStr (_filter_str 1 B)] ->
      stored_filters (async_step_general_filters (Some ui) w).2
        = Some [EDict C; EDict B]).
Proof.
  intros Hid Hf Hfl Hopts. split; intros Hsub.
  - apply (general_filters_finalize w ui [(1%nat, B); (2%nat, C)] lf _ _ opts
             Hid Hsub Hf Hfl Hopts).
    by repeat constructor.
  - apply (general_filters_finalize w ui [(2%nat, C); (1%nat, B)] lf _ _ opts
             Hid Hsub Hf Hfl Hopts).
    by repeat constructor.
Qed.

Lemma finalize_stores_in_submitted_order_witness :
  stored_filters
    (async_step_general_filters (Some pick)
       (abc_world [EStr display_B; EStr display_C])).2
  = Some [EDict filter_B; EDict filter_C].
Proof.
  apply (proj1 (finalize_stores_in_submitted_order
                  (abc_world [EStr display_B; EStr display_C]) pick 0%nat
                  filter_A filter_B filter_C ∅
                  eq_refl eq_refl eq_refl eq_refl)).
  reflexivity.
Defined.

(** C1 as stated fails: submitted as C's string then B's, the stored
    list is [C, B], not [B, C]. *)
Lemma finalize_order_counterexample :
  stored_filters
    (async_step_general_filters (Some pick)
       (abc_world [EStr display_C; EStr display_B])).2
  = Some [EDict filter_C; EDict filter_B]
  /\ stored_filters
       (async_step_general_filters (Some pick)
          (abc_world [EStr display_C; EStr display_B])).2
     <> Some [EDict filter_B; EDict filter_C].
Proof. split; [vm_compute; reflexivity|]. vm_compute. intros [=]. Qed.


(** C9.  For every filter list and position [i], the display string
    generated for position [i] has, before its first ".", text that
    [int] reads as [i + 1]; the index the finalize branch computes from
    it is [i], whatever the four fields hold. *)
Theorem display_index_round_trip (fs : list Filter) (i : nat) (s : string)
    (w : World) :
  filter_strs_from 0 fs !! i = Some s ->
  (exists head, getitem (split "." s) 0 = Some head
                /\ int head = Some (Z.of_nat i + 1))
  /\ selected_index (EStr s) w = (Ok (Z.of_nat i), w).
Proof.
  intros H. apply filter_strs_from_lookup in H as (f & _ & ->).
  rewrite Z.add_0_l. split; [|apply selected_index_filter_str].
  destruct (filter_str_head (Z.of_nat i) f (Nat2Z.is_nonneg i)) as [t ->].
  eexists. split; [apply getitem_head|]. apply int_str_of_int. lia.
Qed.

Lemma display_index_round_trip_witness :
  (exists head, getitem (split "." display_C) 0 = Some head
                /\ int head = Some (Z.of_nat 2 + 1))
  /\ selected_index (EStr display_C) (abc_world [])
     = (Ok (Z.of_nat 2), abc_world []).
Proof.
  apply (display_index_round_trip [filter_A; filter_B; filter_C] 2 display_C
           (abc_world [])).
  reflexivity.
Defined.

(** Selections that are display strings of the current list come with
    their positions. *)
Lemma generated_selection (fs : list Filter) (strs : list string) :
  (forall s, s ∈ strs -> s ∈ filter_strs_from 0 fs) ->
  exists sel : list (nat * Filter),
    strs = (fun p => _filter_str (Z.of_nat p.1) p.2) <$> sel
    /\ Forall (fun p => fs !! p.1 = Some p.2) sel.
Proof.
  induction strs as [|s strs IH]; intros H.
  - by exists [].
  - destruct IH as (sel & -> & Hsel).
    { intros s' Hs'. apply H. by right. }
    assert (s ∈ filter_strs_from 0 fs) as Hs by (apply H; by left).
    apply list_elem_of_lookup in Hs as [i Hi].
    apply filter_strs_from_lookup in Hi as (f & Hf & ->).
    exists ((i, f) :: sel). split; [|by constructor].
    simpl. by rewrite Z.add_0_l.
Qed.

(** C10.  When every selected string is a display string generated for
    a filter of the wizard's current list, the finalize branch
    (lines 183-190) does not fail: each selection parses to an index
    inside the list, the indexing finds a record, and the branch returns
    with the picked records in the draft. *)
Theorem finalize_filters_never_fails (w : World) (ui : gmap string value)
    (strs : list string) (lf : loc) (fs : list Filter)
    (opts : gmap string value) :
  submitted_list (heap w) ui CONF_FILTER = Some (EStr <$> strs) ->
  filters w = VList lf ->
  heap w !! lf = Some (EDict <$> fs) ->
  options w = Some opts ->
  (forall s, s ∈ strs -> s ∈ filter_strs_from 0 fs) ->
  Forall (fun s => exists i : nat,
            selected_index (EStr s) w = (Ok (Z.of_nat i), w)
            /\ (i < length fs)%nat
            /\ is_Some (getitem (EDict <$> fs) (Z.of_nat i))) strs
  /\ exists picked,
       finalize_filters ui w = (Ok tt, after_finalize w opts picked)
       /\ stored_filters (after_finalize w opts picked) = Some picked
       /\ length picked = length strs.
Proof.
  intros Hsub Hf Hfl Hopts Hgen.
  destruct (generated_selection fs strs Hgen) as (sel & -> & Hsel).
  split.
  - apply Forall_fmap. eapply Forall_impl; [exact Hsel|].
    intros [i f] Hi. simpl in *. exists i.
    split; [apply selected_index_filter_str|].
    split; [by eapply lookup_lt_Some|].
    exists (EDict f). apply getitem_lookup. by rewrite list_lookup_fmap, Hi.
  - exists ((fun p => EDict p.2) <$> sel). split_and!.
    + eapply finalize_filters_picks; eauto.
      * by rewrite Hsub, <- list_fmap_compose.
      * apply Forall2_fmap_r, Forall_Forall2_diag.
        eapply Forall_impl; [exact Hsel|].
        intros [i f] Hi. simpl in *. by rewrite list_lookup_fmap, Hi.
    + apply stored_filters_after_finalize.
    + by rewrite !length_fmap.
Qed.

Lemma finalize_filters_never_fails_witness :
  Forall (fun s => exists i : nat,
            selected_index (EStr s) (abc_world [EStr display_C; EStr display_B])
            = (Ok (Z.of_nat i), abc_world [EStr display_C; EStr display_B])
            /\ (i < length [filter_A; filter_B; filter_C])%nat
            /\ is_Some (getitem (EDict <$> [filter_A; filter_B; filter_C])
                          (Z.of_nat i)))
         [display_C; display_B]
  /\ exists picked,
       finalize_filters pick (abc_world [EStr display_C; EStr display_B])
       = (Ok tt, after_finalize (abc_world [EStr display_C; EStr display_B]) ∅ picked)
       /\ stored_filters
            (after_finalize (abc_world [EStr display_C; EStr display_B]) ∅ picked)
          = Some picked
       /\ length picked = length [display_C; display_B].
Proof.
  apply (finalize_filters_never_fails
           (abc_world [EStr display_C; EStr display_B]) pick
           [display_C; display_B] 0%nat [filter_A; filter_B; filter_C] ∅
           eq_refl eq_refl eq_refl eq_refl).
  intros s Hs. apply list_elem_of_In in Hs. apply list_elem_of_In.
  simpl in Hs. destruct Hs as [<-|[<-|[]]]; vm_compute; auto.
Defined.

(** *** The add-one-filter branch of [general_filters] *)

Lemma bind_get {S A} (k : S -> M S A) (s : S) : bind get k s = k s s.
Proof. reflexivity. Qed.

Lemma append_eq (l : loc) (x : elem) (xs : list elem) (w : World) :
  heap w !! l = Some xs ->
  append l x w = (Ok tt, set_heap (<[l := xs ++ [x]]> (heap w)) w).
Proof.
  intros H. unfold append. by rewrite (bind_ok _ _ _ _ _ (deref_eq _ _ _ H)).
Qed.

Lemma append_method_eq (l : loc) (w : World) : append_method (VList l) w = (Ok l, w).
Proof. reflexivity. Qed.

Lemma append_value_eq (l : loc) (x : elem) (xs : list elem) (w : World) :
  heap w !! l = Some xs ->
  append_value (VList l) x w = (Ok tt, set_heap (<[l := xs ++ [x]]> (heap w)) w).
Proof.
  intros H. unfold append_value.
  rewrite (bind_ok _ _ _ _ _ (append_method_eq l w)). by apply append_eq.
Qed.

Lemma mapM_as_filter (fs : list Filter) (w : World) :
  mapM as_filter (EDict <$> fs) w = (Ok fs, w).
Proof. apply mapM_ok, Forall2_fmap_l, Forall_Forall2_diag, Forall_forall. done. Qed.

Lemma filter_strings_eq (l : loc) (fs : list Filter) (w : World) :
  heap w !! l = Some (EDict <$> fs) ->
  filter_strings (VList l) w = (Ok (filter_strs_from 0 fs), w).
Proof.
  intros H. unfold filter_strings. simpl.
  rewrite (bind_ok _ _ _ _ _ (deref_eq _ _ _ H)).
  by rewrite (bind_ok _ _ _ _ _ (mapM_as_filter _ _)).
Qed.

(** C4.  A submission of [general_filters] that carries the entity-id
    field shows the [general_filters] form again: the record built from
    the four fields is appended to the wizard's filter list, which grows
    by exactly one, and its display string is appended to the
    pre-selection. *)
Theorem add_filter_rerenders_general_filters (w : World)
    (ui : gmap string value) (e u a b : scalar) (lf : loc)
    (fs : list Filter) (sel : list elem) :
  ui !! CONF_ENTITY_ID = Some (VScalar e) ->
  dict_get ui CONF_UNIT_OF_MEASUREMENT = VScalar u ->
  dict_get ui CONF_ABOVE = VScalar a ->
  dict_get ui CONF_BELOW = VScalar b ->
  filters w = VList lf ->
  heap w !! lf = Some (EDict <$> fs) ->
  submitted_list (heap w) ui CONF_FILTER = Some sel ->
  ui !! CONF_FILTER <> Some (VList lf) ->
  exists (ls : loc) (w' : World),
    async_step_general_filters (Some ui) w
    = (Ok (ShowForm "general_filters"
             [ Optional CONF_FILTER (Given (VList ls))
                 (MultiSelect (filter_strs_from 0 (fs ++ [mkFilter e u a b])));
               Optional CONF_ENTITY_ID UNDEFINED IsStr;
               Optional CONF_UNIT_OF_MEASUREMENT UNDEFINED IsStr;
               Optional CONF_ABOVE UNDEFINED CoerceFloat;
               Optional CONF_BELOW UNDEFINED CoerceFloat ]
             ∅), w')
    /\ filters w' = VList lf
    /\ heap w' !! lf = Some (EDict <$> (fs ++ [mkFilter e u a b]))
    /\ length (fs ++ [mkFilter e u a b]) = Datatypes.S (length fs)
    /\ heap w' !! ls
       = Some (sel ++ [EStr (_filter_str (Z.of_nat (length fs)) (mkFilter e u a b))])
    /\ options w' = options w.
Proof.
  intros He Hu Ha Hb Hf Hfl Hsel Hne.
  set (new := mkFilter e u a b).
  set (x := EStr (_filter_str (Z.of_nat (length fs)) new)).
  set (h1 := heap w ++ [[]]).
  set (ls := match ui !! CONF_FILTER with
             | Some (VList l) => l | _ => length (heap w) end).
  assert (lf < length (heap w))%nat as Hlf by (by eapply lookup_lt_Some).
  assert (h1 !! lf = Some (EDict <$> fs)) as Hfl1 by (by apply lookup_app_l_Some).
  assert (ls <> lf /\ h1 !! ls = Some sel
          /\ match ui !! CONF_FILTER with
             | Some v => v | None => VList (length (heap w)) end = VList ls)
    as (Hls & Hsel1 & Hchosen).
  { unfold submitted_list in Hsel. subst ls h1.
    destruct (ui !! CONF_FILTER) as [[s|l]|]; [done| |].
    - split_and!; [congruence| by apply lookup_app_l_Some | done].
    - injection Hsel as <-. split_and!; [lia| |done].
      by rewrite lookup_app_r, Nat.sub_diag. }
  set (h2 := <[ls := sel ++ [x]]> h1).
  set (h3 := <[lf := (EDict <$> fs) ++ [EDict new]]> h2).
  assert (h2 !! lf = Some (EDict <$> fs)) as Hfl2.
  { subst h2. by rewrite list_lookup_insert_ne. }
  assert (h3 !! lf = Some (EDict <$> (fs ++ [new]))) as Hfl3.
  { subst h3. rewrite list_lookup_insert_eq, fmap_app; [done|].
    by eapply lookup_lt_Some. }
  exists ls, (set_heap h3 w). split_and!; try done.
  - unfold async_step_general_filters. rewrite He.
    rewrite (bind_ok _ _ _ _ _ (get_or_new_list_eq _ _ _)), Hchosen.
    fold h1. set (w1 := set_heap h1 w).
    assert (new_filter_of ui w1 = (Ok new, w1)) as Hnew.
    { unfold new_filter_of, FILTER_OPTIONS. cbn [mapM].
      replace (dict_get ui CONF_ENTITY_ID) with (VScalar e)
        by (unfold dict_get; by rewrite He).
      by rewrite Hu, Ha, Hb. }
    rewrite (bind_ok _ _ _ _ _ Hnew).
    rewrite (bind_ok _ _ _ _ _ (append_method_eq ls w1)).
    rewrite bind_get.
    assert (len (filters w1) w1 = (Ok (Z.of_nat (length fs)), w1)) as Hlen.
    { unfold len. simpl filters. rewrite Hf. simpl iterate.
      rewrite (bind_ok _ _ _ _ _ (deref_eq _ _ w1 Hfl1)).
      by rewrite length_fmap. }
    rewrite (bind_ok _ _ _ _ _ Hlen). fold x.
    rewrite (bind_ok _ _ _ _ _ (append_eq ls x sel w1 Hsel1)).
    simpl filters. rewrite Hf.
    rewrite (bind_ok _ _ _ _ _ (append_value_eq lf (EDict new) (EDict <$> fs)
                                  (set_heap h2 w) Hfl2)).
    unfold general_filters_form. rewrite bind_get.
    simpl filters. rewrite Hf.
    by rewrite (bind_ok _ _ _ _ _ (filter_strings_eq lf (fs ++ [new])
                                     (set_heap h3 w) Hfl3)).
  - rewrite length_app. simpl. lia.
  - simpl. subst h3 h2. rewrite list_lookup_insert_ne by done.
    rewrite list_lookup_insert_eq; [done|]. by eapply lookup_lt_Some.
Qed.

Lemma add_filter_rerenders_general_filters_witness :
  exists (ls : loc) (w' : World),
    async_step_general_filters (Some add_one) (abc_world [EStr display_B])
    = (Ok (ShowForm "general_filters"
             [ Optional CONF_FILTER (Given (VList ls))
                 (MultiSelect
                    (filter_strs_from 0
                       ([filter_A; filter_B; filter_C]
                        ++ [mkFilter (SStr "sensor.door.1") SNone (SFloat "5.0") SNone])));
               Optional CONF_ENTITY_ID UNDEFINED IsStr;
               Optional CONF_UNIT_OF_MEASUREMENT UNDEFINED IsStr;
               Optional CONF_ABOVE UNDEFINED CoerceFloat;
               Optional CONF_BELOW UNDEFINED CoerceFloat ]
             ∅), w')
    /\ filters w' = VList 0%nat
    /\ heap w' !! 0%nat
       = Some (EDict <$> ([filter_A; filter_B; filter_C]
                          ++ [mkFilter (SStr "sensor.door.1") SNone (SFloat "5.0") SNone]))
    /\ length ([filter_A; filter_B; filter_C]
               ++ [mkFilter (SStr "sensor.door.1") SNone (SFloat "5.0") SNone])
       = Datatypes.S (length [filter_A; filter_B; filter_C])
    /\ heap w' !! ls
       = Some ([EStr display_B]
               ++ [EStr (_filter_str (Z.of_nat (length [filter_A; filter_B; filter_C]))
                           (mkFilter (SStr "sensor.door.1") SNone (SFloat "5.0") SNone))])
    /\ options w' = options (abc_world [EStr display_B]).
Proof.
  apply (add_filter_rerenders_general_filters
           (abc_world [EStr display_B]) add_one
           (SStr "sensor.door.1") SNone (SFloat "5.0") SNone 0%nat
           [filter_A; filter_B; filter_C] [EStr display_B]
           eq_refl eq_refl eq_refl eq_refl eq_refl eq_refl eq_refl).
  vm_compute. intros [=].
Defined.

(** *** [_default] *)

Lemma truthy_eq (v : value) (w : World) :
  (forall l, v = VList l -> is_Some (heap w !! l)) ->
  truthy v w = (Ok (is_truthy (heap w) v), w).
Proof.
  destruct v as [a|l]; [done|]. intros H. destruct (H l eq_refl) as [xs Hxs].
  unfold truthy. rewrite (bind_ok _ _ _ _ _ (deref_eq _ _ _ Hxs)).
  simpl. rewrite Hxs. by destruct xs.
Qed.

(** C8.  For every option key, [_default] returns the persisted value
    when one is stored and truthy and [vol.UNDEFINED] otherwise; an
    empty stored list gives [vol.UNDEFINED], as a key never configured
    does.  The state is left as it was. *)
Theorem default_is_persisted_value_or_undefined (w : World) (conf : string) :
  (forall l, entry_options w !! conf = Some (VList l) -> is_Some (heap w !! l)) ->
  _default conf w
  = (Ok (match entry_options w !! conf with
         | Some v => if is_truthy (heap w) v then Given v else UNDEFINED
         | None => UNDEFINED
         end), w)
  /\ (forall l, entry_options w !! conf = Some (VList l) -> heap w !! l = Some [] ->
      _default conf w = (Ok UNDEFINED, w))
  /\ (entry_options w !! conf = None -> _default conf w = (Ok UNDEFINED, w)).
Proof.
  intros Hok.
  assert (_default conf w
          = (Ok (match entry_options w !! conf with
                 | Some v => if is_truthy (heap w) v then Given v else UNDEFINED
                 | None => UNDEFINED
                 end), w)) as Heq.
  { unfold _default. rewrite bind_get. unfold dict_get.
    destruct (entry_options w !! conf) as [v|] eqn:E; [|done].
    rewrite (bind_ok _ _ _ _ _ (truthy_eq v w ltac:(intros l ->; by apply Hok))).
    done. }
  split_and!; [done| |].
  - intros l Hl Hnil. rewrite Heq, Hl. simpl. by rewrite Hnil.
  - intros Hnone. by rewrite Heq, Hnone.
Qed.

Lemma stale_world_store_ok : store_ok stale_world.
Proof.
  intros k l H. unfold stale_world, init_handler in H. simpl in H.
  apply lookup_insert_Some in H as [[_ [= <-]]|[_ H]]; [by eexists|].
  apply lookup_insert_Some in H as [[_ [= <-]]|[_ H]]; [by eexists|].
  by rewrite lookup_empty in H.
Defined.

Lemma default_is_persisted_value_or_undefined_witness :
  _default CONF_INCLUDE_DOMAINS stale_world = (Ok UNDEFINED, stale_world)
  /\ _default CONF_INCLUDE_ENTITIES stale_world
     = (Ok (Given (VList 1%nat)), stale_world)
  /\ _default CONF_EXCLUDE_ENTITIES stale_world = (Ok UNDEFINED, stale_world).
Proof.
  split_and!.
  - exact (proj1 (proj2 (default_is_persisted_value_or_undefined
                           stale_world CONF_INCLUDE_DOMAINS
                           (stale_world_store_ok CONF_INCLUDE_DOMAINS)))
             0%nat eq_refl eq_refl).
  - exact (proj1 (default_is_persisted_value_or_undefined
                    stale_world CONF_INCLUDE_ENTITIES
                    (stale_world_store_ok CONF_INCLUDE_ENTITIES))).
  - exact (proj2 (proj2 (default_is_persisted_value_or_undefined
                           stale_world CONF_EXCLUDE_ENTITIES
                           (stale_world_store_ok CONF_EXCLUDE_ENTITIES)))
             eq_refl).
Defined.

(** *** [_domains_and_entities] *)

Lemma bind_ret {S A B} (a : A) (k : A -> M S B) (s : S) : bind (ret a) k s = k a s.
Proof. reflexivity. Qed.

Lemma mapM_hash_elem (names : list string) (w : World) :
  mapM hash_elem (EStr <$> names) w = (Ok names, w).
Proof. apply mapM_ok, Forall2_fmap_l, Forall_Forall2_diag, Forall_forall. done. Qed.

Lemma persisted_names_submitted (w : World) (k : string) (names : list string) :
  persisted_names w k names ->
  submitted_list (heap w) (entry_options w) k = Some (EStr <$> names).
Proof.
  unfold persisted_names, submitted_list.
  destruct (entry_options w !! k) as [[a|l]|]; [done|done|]. by intros ->.
Qed.

Lemma submitted_list_app (h ext : list (list elem)) (ui : gmap string value)
    (k : string) (xs : list elem) :
  submitted_list h ui k = Some xs -> submitted_list (h ++ ext) ui k = Some xs.
Proof.
  unfold submitted_list. destruct (ui !! k) as [[a|l]|]; [done| |done].
  apply lookup_app_l_Some.
Qed.

(** [set(d.get(k, []))] on a persisted list of names, after the
    look-up has built its default list. *)
Lemma set_of_submitted (d : gmap string value) (k : string)
    (names : list string) (w : World) :
  submitted_list (heap w) d k = Some (EStr <$> names) ->
  set_of (match d !! k with Some v => v | None => VList (length (heap w)) end)
         (set_heap (heap w ++ [[]]) w)
  = (Ok (list_to_set names), set_heap (heap w ++ [[]]) w).
Proof.
  intros H. unfold set_of.
  rewrite (bind_ok _ _ _ _ _ (iterate_submitted _ _ _ _ H)).
  by rewrite (bind_ok _ _ _ _ _ (mapM_hash_elem _ _)).
Qed.

Lemma domain_of_eq (e : string) (w : World) :
  domain_of e w = (Ok (default EmptyString (getitem (split "." e) 0)), w)
  /\ is_Some (getitem (split "." e) 0).
Proof.
  unfold domain_of. pose proof (split_nonempty "." e) as Hne.
  destruct (split "." e) as [|h t]; [done|]. by rewrite getitem_head.
Qed.

Lemma elem_of_sorted (x : string) (l : list string) : x ∈ sorted l <-> x ∈ l.
Proof. unfold sorted. by rewrite merge_sort_Permutation. Qed.

(** The world [_domains_and_entities] leaves: two default lists. *)
Lemma domains_and_entities_eq (w : World) (remote : gset string)
    (inc exc : list string) :
  remote_entities w = Some remote ->
  persisted_names w CONF_INCLUDE_ENTITIES inc ->
  persisted_names w CONF_EXCLUDE_ENTITIES exc ->
  let entities :=
    sorted (elements (remote ∪ list_to_set inc ∪ list_to_set exc)) in
  let domains :=
    sorted (elements (list_to_set
      ((fun e => default EmptyString (getitem (split "." e) 0)) <$> entities)
      : gset string)) in
  _domains_and_entities w
  = (Ok (domains, entities), set_heap (heap w ++ [[]; []]) w).
Proof.
  intros Hr Hinc Hexc. cbv zeta. unfold _domains_and_entities.
  rewrite bind_get, Hr. simpl or_raise. rewrite bind_ret.
  apply persisted_names_submitted in Hinc, Hexc.
  rewrite (bind_ok _ _ _ _ _ (get_or_new_list_eq _ _ _)).
  rewrite (bind_ok _ _ _ _ _ (set_of_submitted _ _ _ _ Hinc)).
  rewrite (bind_ok _ _ _ _ _ (get_or_new_list_eq _ _ _)).
  rewrite (bind_ok _ _ _ _ _
             (set_of_submitted (entry_options w) CONF_EXCLUDE_ENTITIES exc
                (set_heap (heap w ++ [[]]) w)
                (submitted_list_app _ [[]] _ _ _ Hexc))).
  erewrite bind_ok; cycle 1.
  { apply mapM_ok_fmap. intros x _. apply domain_of_eq. }
  unfold ret, set_heap. simpl. by rewrite <- app_assoc.
Qed.

Lemma default_eq (w : World) (conf : string) :
  (forall l, entry_options w !! conf = Some (VList l) -> is_Some (heap w !! l)) ->
  exists d, _default conf w = (Ok d, w).
Proof.
  intros Hok. unfold _default. rewrite bind_get. unfold dict_get.
  destruct (entry_options w !! conf) as [v|] eqn:E; [|by eexists].
  rewrite (bind_ok _ _ _ _ _ (truthy_eq v w ltac:(intros l ->; by apply Hok))).
  by eexists.
Qed.

(** C7.  The entity choices the [domain_entity_filters] form offers
    contain every entity of the persisted include-entities and
    exclude-entities options, whether or not the remote connection
    still has it, and the domain choices contain the text before the
    first "." of every such entity. *)
Theorem stale_entities_stay_selectable (w : World) (remote : gset string)
    (inc exc : list string) :
  remote_entities w = Some remote ->
  persisted_names w CONF_INCLUDE_ENTITIES inc ->
  persisted_names w CONF_EXCLUDE_ENTITIES exc ->
  store_ok w ->
  exists (domains entities : list string) (d1 d2 d3 d4 : dflt),
    (_domains_and_entities w).1 = Ok (domains, entities)
    /\ (async_step_domain_entity_filters None w).1
       = Ok (ShowForm "domain_entity_filters"
               [ Optional CONF_INCLUDE_DOMAINS d1 (MultiSelect domains);
                 Optional CONF_INCLUDE_ENTITIES d2 (MultiSelect entities);
                 Optional CONF_EXCLUDE_DOMAINS d3 (MultiSelect domains);
                 Optional CONF_EXCLUDE_ENTITIES d4 (MultiSelect entities) ]
               ∅)
    /\ forall e, e ∈ inc \/ e ∈ exc ->
         e ∈ entities
         /\ exists d, getitem (split "." e) 0 = Some d /\ d ∈ domains.
Proof.
  intros Hr Hinc Hexc Hok.
  pose proof (domains_and_entities_eq w remote inc exc Hr Hinc Hexc) as Hde.
  cbv zeta in Hde.
  set (entities := sorted (elements (remote ∪ list_to_set inc ∪ list_to_set exc))) in *.
  set (domains := sorted (elements (list_to_set
         ((fun e => default EmptyString (getitem (split "." e) 0)) <$> entities)
         : gset string))) in *.
  set (w2 := set_heap (heap w ++ [[]; []]) w) in *.
  assert (forall conf, exists d, _default conf w2 = (Ok d, w2)) as Hd.
  { intros conf. apply default_eq. intros l Hl. simpl in *.
    destruct (Hok conf l Hl) as [xs Hxs]. exists xs. by apply lookup_app_l_Some. }
  destruct (Hd CONF_INCLUDE_DOMAINS) as [d1 H1].
  destruct (Hd CONF_INCLUDE_ENTITIES) as [d2 H2].
  destruct (Hd CONF_EXCLUDE_DOMAINS) as [d3 H3].
  destruct (Hd CONF_EXCLUDE_ENTITIES) as [d4 H4].
  exists domains, entities, d1, d2, d3, d4. split_and!.
  - by rewrite Hde.
  - unfold async_step_domain_entity_filters.
    rewrite (bind_ok _ _ _ _ _ Hde).
    rewrite (bind_ok _ _ _ _ _ H1), (bind_ok _ _ _ _ _ H2).
    by rewrite (bind_ok _ _ _ _ _ H3), (bind_ok _ _ _ _ _ H4).
  - intros e He.
    assert (e ∈ entities) as Hent.
    { apply elem_of_sorted, elem_of_elements.
      destruct He as [He|He]; set_solver. }
    split; [done|].
    destruct (domain_of_eq e w) as [_ [d Hd']]. exists d. split; [done|].
    apply elem_of_sorted, elem_of_elements, elem_of_list_to_set, list_elem_of_fmap.
    exists e. split; [|done]. by rewrite Hd'.
Qed.

Lemma stale_entities_stay_selectable_witness :
  exists (domains entities : list string) (d1 d2 d3 d4 : dflt),
    (_domains_and_entities stale_world).1 = Ok (domains, entities)
    /\ (async_step_domain_entity_filters None stale_world).1
       = Ok (ShowForm "domain_entity_filters"
               [ Optional CONF_INCLUDE_DOMAINS d1 (MultiSelect domains);
                 Optional CONF_INCLUDE_ENTITIES d2 (MultiSelect entities);
                 Optional CONF_EXCLUDE_DOMAINS d3 (MultiSelect domains);
                 Optional CONF_EXCLUDE_ENTITIES d4 (MultiSelect entities) ]
               ∅)
    /\ forall e, e ∈ ["sensor.gone"; "light.hall"] \/ e ∈ ([] : list string) ->
         e ∈ entities
         /\ exists d, getitem (split "." e) 0 = Some d /\ d ∈ domains.
Proof.
  apply (stale_entities_stay_selectable stale_world
           {["light.hall"; "switch.pump"]} ["sensor.gone"; "light.hall"] []
           eq_refl eq_refl eq_refl stale_world_store_ok).
Defined.

(** *** The events step *)

Lemma bind_modify {S A} (f : S -> S) (k : unit -> M S A) (s : S) :
  bind (modify f) k s = k tt (f s).
Proof. reflexivity. Qed.

Lemma submitted_list_loc (h : list (list elem)) (ui : gmap string value)
    (k : string) (xs : list elem) :
  submitted_list h ui k = Some xs ->
  exists ls, match ui !! k with Some v => v | None => VList (length h) end = VList ls
             /\ (h ++ [[]]) !! ls = Some xs.
Proof.
  unfold submitted_list. destruct (ui !! k) as [[a|l]|]; [done| |].
  - intros H. exists l. split; [done|]. by apply lookup_app_l_Some.
  - intros [= <-]. exists (length h). split; [done|].
    by rewrite lookup_app_r, Nat.sub_diag.
Qed.

(** One add-new-event submission. *)
Lemma add_event_eq (w : World) (ui : gmap string value) (name : string)
    (evs : gset string) (sel : list elem) :
  ui !! ADD_NEW_EVENT = Some (VScalar (SStr name)) ->
  events w = Some evs ->
  submitted_list (heap w) ui CONF_SUBSCRIBE_EVENTS = Some sel ->
  exists ls,
    async_step_events (Some ui) w
    = (Ok (ShowForm "events"
             [ Optional CONF_SUBSCRIBE_EVENTS (Given (VList ls))
                 (MultiSelectSet ({[name]} ∪ evs));
               Optional ADD_NEW_EVENT UNDEFINED IsStr ]
             ∅),
       set_heap (<[ls := sel ++ [EStr name]]> (heap w ++ [[]]))
         (set_events ({[name]} ∪ evs) w))
    /\ (heap w ++ [[]]) !! ls = Some sel.
Proof.
  intros Hadd Hev Hsel.
  destruct (submitted_list_loc _ _ _ _ Hsel) as (ls & Hls & Hlk).
  exists ls. split; [|done].
  unfold async_step_events. rewrite Hadd.
  rewrite (bind_ok _ _ _ _ _ (get_or_new_list_eq _ _ _)), Hls.
  rewrite bind_get. simpl events. rewrite Hev. simpl or_raise.
  simpl as_name. rewrite !bind_ret. rewrite bind_modify.
  simpl append_value.
  rewrite (bind_ok _ _ _ _ _
             (append_eq ls (EStr name) sel
                (set_events ({[name]} ∪ evs) (set_heap (heap w ++ [[]]) w)) Hlk)).
  reflexivity.
Qed.

(** The finalize submission of the events step. *)
Lemma finalize_events_eq (w : World) (ui : gmap string value)
    (opts : gmap string value) (sel : list elem) :
  ui !! ADD_NEW_EVENT = None ->
  options w = Some opts ->
  submitted_list (heap w) ui CONF_SUBSCRIBE_EVENTS = Some sel ->
  exists v,
    async_step_events (Some ui) w
    = (Ok (CreateEntry "" (<[CONF_SUBSCRIBE_EVENTS := v]> opts)),
       set_options (<[CONF_SUBSCRIBE_EVENTS := v]> opts)
         (set_heap (heap w ++ [[]]) w))
    /\ show (heap w ++ [[]]) v = ShownList sel.
Proof.
  intros Hadd Hopts Hsel.
  destruct (submitted_list_loc _ _ _ _ Hsel) as (ls & Hls & Hlk).
  exists (VList ls). split; [|simpl; by rewrite Hlk].
  unfold async_step_events. rewrite Hadd.
  rewrite (bind_ok _ _ _ _ _ (get_or_new_list_eq _ _ _)), Hls.
  rewrite bind_get. simpl options. rewrite Hopts. simpl or_raise.
  by rewrite bind_ret.
Qed.

(** C5, as amended.  The wizard's event set, which the events form
    offers as its choices, is deduplicated: a second add-new-event
    submission with the same name leaves the set as the first made it,
    with the name a member.  Each add appends the name to the
    selection it was submitted with, and the finalize submission's
    selection is stored in the draft as it was submitted. *)
Theorem event_set_deduplicates_stored_list_is_submission (w : World)
    (ui1 ui2 ui3 : gmap string value) (name : string) (evs : gset string)
    (sel1 sel2 sel3 : list elem) (opts : gmap string value) :
  events w = Some evs ->
  options w = Some opts ->
  ui1 !! ADD_NEW_EVENT = Some (VScalar (SStr name)) ->
  ui2 !! ADD_NEW_EVENT = Some (VScalar (SStr name)) ->
  ui3 !! ADD_NEW_EVENT = None ->
  submitted_list (heap w) ui1 CONF_SUBSCRIBE_EVENTS = Some sel1 ->
  submitted_list (heap (async_step_events (Some ui1) w).2) ui2
    CONF_SUBSCRIBE_EVENTS = Some sel2 ->
  submitted_list
    (heap (async_step_events (Some ui2) (async_step_events (Some ui1) w).2).2)
    ui3 CONF_SUBSCRIBE_EVENTS = Some sel3 ->
  let w1 := (async_step_events (Some ui1) w).2 in
  let r2 := async_step_events (Some ui2) w1 in
  let r3 := async_step_events (Some ui3) r2.2 in
  events w1 = Some ({[name]} ∪ evs)
  /\ events r2.2 = events w1
  /\ name ∈ ({[name]} ∪ evs : gset string)
  /\ (exists ls,
        (async_step_events (Some ui1) w).1
        = Ok (ShowForm "events"
                [ Optional CONF_SUBSCRIBE_EVENTS (Given (VList ls))
                    (MultiSelectSet ({[name]} ∪ evs));
                  Optional ADD_NEW_EVENT UNDEFINED IsStr ]
                ∅)
        /\ heap w1 !! ls = Some (sel1 ++ [EStr name]))
  /\ (exists ls,
        r2.1 = Ok (ShowForm "events"
                     [ Optional CONF_SUBSCRIBE_EVENTS (Given (VList ls))
                         (MultiSelectSet ({[name]} ∪ evs));
                       Optional ADD_NEW_EVENT UNDEFINED IsStr ]
                     ∅)
        /\ heap r2.2 !! ls = Some (sel2 ++ [EStr name]))
  /\ (exists v,
        r3.1 = Ok (CreateEntry "" (<[CONF_SUBSCRIBE_EVENTS := v]> opts))
        /\ options r3.2 = Some (<[CONF_SUBSCRIBE_EVENTS := v]> opts)
        /\ show (heap r3.2) v = ShownList sel3).
Proof.
  intros Hev Hopts H1 H2 H3 Hs1 Hs2 Hs3. cbv zeta.
  destruct (add_event_eq w ui1 name evs sel1 H1 Hev Hs1) as (l1 & E1 & Hl1).
  rewrite E1 in Hs2, Hs3 |- *. cbn [snd] in *.
  set (w1 := set_heap _ (set_events ({[name]} ∪ evs) w)) in *.
  destruct (add_event_eq w1 ui2 name ({[name]} ∪ evs) sel2 H2 eq_refl Hs2)
    as (l2 & E2 & Hl2).
  assert ({[name]} ∪ ({[name]} ∪ evs) = {[name]} ∪ evs) as Hidem
    by (by rewrite (assoc_L (∪)), (idemp_L (∪))).
  rewrite Hidem in E2.
  rewrite E2 in Hs3 |- *. cbn [snd] in *.
  set (w2 := set_heap _ (set_events ({[name]} ∪ evs) w1)) in *.
  destruct (finalize_events_eq w2 ui3 opts sel3 H3 Hopts Hs3) as (v & E3 & Hv).
  rewrite E3. cbn [fst snd].
  split_and!; [done|done|by apply elem_of_union_l, elem_of_singleton| | |].
  - exists l1. split; [done|].
    apply list_lookup_insert_eq. by eapply lookup_lt_Some.
  - exists l2. split; [done|].
    apply list_lookup_insert_eq. by eapply lookup_lt_Some.
  - by exists v.
Qed.

Lemma event_set_deduplicates_stored_list_is_submission_witness :
  let w1 := (async_step_events (Some (add_foo 0%nat)) events_world).2 in
  let r2 := async_step_events (Some (add_foo 1%nat)) w1 in
  let r3 := async_step_events (Some {[CONF_SUBSCRIBE_EVENTS := VList 2%nat]}) r2.2 in
  events w1 = Some ({["foo"]} ∪ ∅)
  /\ events r2.2 = events w1
  /\ "foo" ∈ ({["foo"]} ∪ ∅ : gset string)
  /\ (exists ls,
        (async_step_events (Some (add_foo 0%nat)) events_world).1
        = Ok (ShowForm "events"
                [ Optional CONF_SUBSCRIBE_EVENTS (Given (VList ls))
                    (MultiSelectSet ({["foo"]} ∪ ∅));
                  Optional ADD_NEW_EVENT UNDEFINED IsStr ]
                ∅)
        /\ heap w1 !! ls = Some ([] ++ [EStr "foo"]))
  /\ (exists ls,
        r2.1 = Ok (ShowForm "events"
                     [ Optional CONF_SUBSCRIBE_EVENTS (Given (VList ls))
                         (MultiSelectSet ({["foo"]} ∪ ∅));
                       Optional ADD_NEW_EVENT UNDEFINED IsStr ]
                     ∅)
        /\ heap r2.2 !! ls = Some ([EStr "foo"] ++ [EStr "foo"]))
  /\ (exists v,
        r3.1 = Ok (CreateEntry "" (<[CONF_SUBSCRIBE_EVENTS := v]> ∅))
        /\ options r3.2 = Some (<[CONF_SUBSCRIBE_EVENTS := v]> ∅)
        /\ show (heap r3.2) v = ShownList [EStr "foo"; EStr "foo"]).
Proof.
  apply (event_set_deduplicates_stored_list_is_submission events_world
           (add_foo 0%nat) (add_foo 1%nat) {[CONF_SUBSCRIBE_EVENTS := VList 2%nat]}
           "foo" ∅ [] [EStr "foo"] [EStr "foo"; EStr "foo"] ∅);
    vm_compute; reflexivity.
Defined.

(** C5 as stated fails.  In a run that adds "foo" twice, each time
    submitting the form as it was pre-selected, the form offers the one
    choice "foo" with the pre-selection ["foo", "foo"], and finalizing
    with that selection persists "foo" twice. *)
Lemma twice_added_event_is_stored_twice :
  (exists l,
     (run twice_adds twice_world).1
     = Ok (ShowForm "events"
             [ Optional CONF_SUBSCRIBE_EVENTS (Given (VList l))
                 (MultiSelectSet {["foo"]});
               Optional ADD_NEW_EVENT UNDEFINED IsStr ]
             ∅)
     /\ heap (run twice_adds twice_world).2 !! l = Some [EStr "foo"; EStr "foo"])
  /\ persisted (run twice_inputs twice_world).2 !! CONF_SUBSCRIBE_EVENTS
     = Some (ShownList [EStr "foo"; EStr "foo"])
  /\ count_occ elem_eq_dec [EStr "foo"; EStr "foo"] (EStr "foo") = 2%nat.
Proof.
  split_and!.
  - exists 0%nat. split; vm_compute; reflexivity.
  - vm_compute. reflexivity.
  - vm_compute. reflexivity.
Qed.

(** C6 at its failing input.  The entry persists the filter list [A].
    A run that adds one filter in [general_filters] and is abandoned
    there, at the re-shown form, leaves the entry's persisted filter
    list with the new record appended: the wizard's list is the
    entry's own list object. *)
Theorem add_filter_writes_persisted_list :
  persisted one_filter_world !! CONF_FILTER = Some (ShownList [EDict filter_A])
  /\ (exists schema,
        (run add_then_abandon one_filter_world).1
        = Ok (ShowForm "general_filters" schema ∅))
  /\ persisted (run add_then_abandon one_filter_world).2 !! CONF_FILTER
     = Some (ShownList [EDict filter_A;
                        EDict (mkFilter (SStr "sensor.door.1") SNone SNone SNone)])
  /\ entry_options (run add_then_abandon one_filter_world).2
     = entry_options one_filter_world.
Proof.
  split_and!.
  - vm_compute. reflexivity.
  - eexists. vm_compute. reflexivity.
  - vm_compute. reflexivity.
  - vm_compute. reflexivity.
Qed.

(** *** First entry and the whole run *)

(** On first entry, [general_filters] takes the entry's persisted filter
    list itself as the wizard's list and pre-selects the display
    strings of all its records. *)
Lemma general_filters_first_entry (w : World) (l : loc) (fs : list Filter) :
  entry_options w !! CONF_FILTER = Some (VList l) ->
  heap w !! l = Some (EDict <$> fs) ->
  exists w',
    async_step_general_filters None w
    = (Ok (ShowForm "general_filters"
             [ Optional CONF_FILTER (Given (VList (Datatypes.S (length (heap w)))))
                 (MultiSelect (filter_strs_from 0 fs));
               Optional CONF_ENTITY_ID UNDEFINED IsStr;
               Optional CONF_UNIT_OF_MEASUREMENT UNDEFINED IsStr;
               Optional CONF_ABOVE UNDEFINED CoerceFloat;
               Optional CONF_BELOW UNDEFINED CoerceFloat ]
             ∅), w')
    /\ filters w' = VList l
    /\ heap w' !! Datatypes.S (length (heap w))
       = Some (EStr <$> filter_strs_from 0 fs)
    /\ heap w' !! l = Some (EDict <$> fs).
Proof.
  intros Hopt Hl.
  assert (l < length (heap w))%nat as Hlt by (by eapply lookup_lt_Some).
  eexists. split_and!.
  - unfold async_step_general_filters. rewrite bind_get.
    rewrite (bind_ok _ _ _ _ _ (get_or_new_list_eq _ _ _)), Hopt.
    rewrite bind_modify.
    set (w1 := set_filters (VList l) (set_heap (heap w ++ [[]]) w)).
    assert (heap w1 !! l = Some (EDict <$> fs)) as Hl1
      by (by apply lookup_app_l_Some).
    rewrite (bind_ok _ _ _ _ _ (filter_strings_eq l fs w1 Hl1)).
    rewrite (bind_ok _ _ _ _ _ (alloc_eq _ _)).
    unfold general_filters_form. rewrite bind_get. simpl filters.
    erewrite bind_ok; cycle 1.
    { apply (filter_strings_eq l fs). simpl. rewrite lookup_app_l.
      - by apply lookup_app_l_Some.
      - rewrite length_app. simpl. lia. }
    simpl. rewrite length_app. simpl.
    by replace (length (heap w) + 1)%nat with (Datatypes.S (length (heap w))) by lia.
  - done.
  - simpl. rewrite lookup_app_r; rewrite length_app; simpl; [|lia].
    by replace (Datatypes.S (length (heap w)) - (length (heap w) + 1))%nat
      with 0%nat by lia.
  - simpl. rewrite lookup_app_l; [|rewrite length_app; simpl; lia].
    by apply lookup_app_l_Some.
Qed.

(** The spec's end-to-end scenario: the run completes and the entry's
    options become entity_prefix "ha_", include_domains ["sensor"], an
    empty filter list and subscribe_events ["state_changed"]. *)
Example end_to_end_scenario :
  (exists data, (run scenario_inputs scenario_world).1 = Ok (CreateEntry "" data))
  /\ persisted (run scenario_inputs scenario_world).2
     = list_to_map
         [ (CONF_ENTITY_PREFIX, ShownScalar (SStr "ha_"));
           (CONF_INCLUDE_DOMAINS, ShownList [EStr "sensor"]);
           (CONF_FILTER, ShownList []);
           (CONF_SUBSCRIBE_EVENTS, ShownList [EStr "state_changed"]) ].
Proof.
  split.
  - eexists. vm_compute. reflexivity.
  - vm_compute. reflexivity.
Qed.

Lemma general_filters_first_entry_witness :
  exists w',
    async_step_general_filters None one_filter_world
    = (Ok (ShowForm "general_filters"
             [ Optional CONF_FILTER
                 (Given (VList (Datatypes.S (length (heap one_filter_world)))))
                 (MultiSelect (filter_strs_from 0 [filter_A]));
               Optional CONF_ENTITY_ID UNDEFINED IsStr;
               Optional CONF_UNIT_OF_MEASUREMENT UNDEFINED IsStr;
               Optional CONF_ABOVE UNDEFINED CoerceFloat;
               Optional CONF_BELOW UNDEFINED CoerceFloat ]
             ∅), w')
    /\ filters w' = VList 0%nat
    /\ heap w' !! Datatypes.S (length (heap one_filter_world))
       = Some (EStr <$> filter_strs_from 0 [filter_A])
    /\ heap w' !! 0%nat = Some (EDict <$> [filter_A]).
Proof.
  exact (general_filters_first_entry one_filter_world 0%nat [filter_A]
           eq_refl eq_refl).
Defined.

End OptionsFlowFacts.

(** ** The options wizard: errors, invariants and whole runs *)

Module WizardFacts.
Import Py PyFacts OptionsFlow OptionsFlowFacts Sample.

(** *** Display strings *)

(** The display strings of a filter list are pairwise different, even
    for equal records: each starts with its own number. *)
Theorem display_strings_distinct (fs : list Filter) :
  NoDup (filter_strs_from 0 fs).
Proof.
  apply NoDup_alt. intros i j s Hi Hj.
  apply filter_strs_from_lookup in Hi as (f & _ & ->).
  apply filter_strs_from_lookup in Hj as (g & _ & Heq).
  rewrite !Z.add_0_l in Heq.
  pose proof (selected_index_filter_str i f (init_handler [] ∅ None)) as H1.
  pose proof (selected_index_filter_str j g (init_handler [] ∅ None)) as H2.
  rewrite Heq in H1. rewrite H1 in H2. injection H2 as H2. lia.
Qed.

(** *** The finalize branch on arbitrary selections *)

Lemma selected_index_eq (s : string) (w : World) :
  selected_index (EStr s) w
  = (if leading_isascii s
     then match leading_number s with
          | Some n => Ok (n - 1)
          | None => Raise ValueError
          end
     else Raise Unmodelled, w).
Proof.
  unfold selected_index, leading_number, leading_isascii.
  pose proof (split_nonempty "." s) as Hne.
  destruct (split "." s) as [|h t]; [done|]. rewrite getitem_head.
  simpl or_raise. rewrite bind_ret.
  destruct (isascii h); [|done]. by destruct (int h).
Qed.

Lemma selected_index_plain (s : string) (w : World) :
  leading_isascii s = true ->
  selected_index (EStr s) w
  = (match leading_number s with
     | Some n => Ok (n - 1)
     | None => Raise ValueError
     end, w).
Proof. intros H. by rewrite selected_index_eq, H. Qed.

(** A loop whose body leaves the state alone fails where the first body
    fails. *)
Lemma mapM_raise {A B} (f : A -> M World B) (l1 l2 : list A) (x : A)
    (ys : list B) (e : exn) (w : World) :
  Forall2 (fun a y => f a w = (Ok y, w)) l1 ys ->
  f x w = (Raise e, w) ->
  mapM f (l1 ++ x :: l2) w = (Raise e, w).
Proof.
  induction 1 as [|a y l1 ys Hay _ IH]; intros Hx; simpl.
  - by rewrite (bind_raise _ _ _ _ _ Hx).
  - rewrite (bind_ok _ _ _ _ _ Hay). by rewrite (bind_raise _ _ _ _ _ (IH Hx)).
Qed.

(** The first element of a list that fails a decidable test. *)
Lemma first_failing {A} (P : A -> Prop) `{!forall x, Decision (P x)}
    (l : list A) :
  ~ Forall P l ->
  exists l1 x l2, l = l1 ++ x :: l2 /\ Forall P l1 /\ ~ P x.
Proof.
  induction l as [|a l IH]; intros Hn; [by destruct Hn|].
  destruct (decide (P a)) as [Ha|Ha].
  - destruct IH as (l1 & x & l2 & -> & Hl1 & Hx).
    { intros Hl. apply Hn. by constructor. }
    exists (a :: l1), x, l2. split_and!; [done|by constructor|done].
  - exists [], a, l. split_and!; [done|constructor|done].
Qed.

Lemma Forall_is_Some_Forall2 {A B} (g : A -> option B) (l : list A) :
  Forall (fun a => is_Some (g a)) l ->
  exists ys, Forall2 (fun a y => g a = Some y) l ys.
Proof.
  induction 1 as [|a l [y Hy] _ [ys IH]]; [by exists []|].
  exists (y :: ys). by constructor.
Qed.

(** [l[i]] for [-len <= i < len] is the element at [i mod len]; outside
    that range there is none. *)
Lemma getitem_mod {A} (l : list A) (i : Z) :
  - Z.of_nat (length l) <= i < Z.of_nat (length l) ->
  getitem l i = l !! Z.to_nat (i mod Z.of_nat (length l)).
Proof.
  intros Hi. unfold getitem. cbv zeta.
  destruct (0 <=? i) eqn:E0.
  - apply Z.leb_le in E0. by rewrite Z.mod_small by lia.
  - apply Z.leb_gt in E0.
    destruct (- Z.of_nat (length l) <=? i) eqn:E1; [|apply Z.leb_gt in E1; lia].
    do 2 f_equal.
    rewrite <- (Z.mod_small (Z.of_nat (length l) + i) (Z.of_nat (length l))) by lia.
    replace (Z.of_nat (length l) + i) with (i + 1 * Z.of_nat (length l)) by lia.
    by rewrite Z_mod_plus_full.
Qed.

Lemma getitem_out_of_range {A} (l : list A) (i : Z) :
  i < - Z.of_nat (length l) \/ Z.of_nat (length l) <= i ->
  getitem l i = None.
Proof.
  intros Hi. unfold getitem. cbv zeta.
  destruct (0 <=? i) eqn:E0.
  - apply Z.leb_le in E0. apply lookup_ge_None. lia.
  - apply Z.leb_gt in E0.
    destruct (- Z.of_nat (length l) <=? i) eqn:E1; [apply Z.leb_le in E1; lia|done].
Qed.

(** The indices of the selections, when every one leads with a number. *)
Lemma selected_indices_eq (strs : list string) (ns : list Z) (w : World) :
  Forall (fun s => leading_isascii s = true) strs ->
  Forall2 (fun s n => leading_number s = Some n) strs ns ->
  mapM selected_index (EStr <$> strs) w = (Ok ((fun n => n - 1) <$> ns), w).
Proof.
  intros Ha H. apply mapM_ok, Forall2_fmap.
  induction H as [|s n strs ns Hs _ IH]; [constructor|].
  apply Forall_cons in Ha as [Hsa Ha]. constructor; [|by apply IH].
  by rewrite (selected_index_plain s w Hsa), Hs.
Qed.

Lemma subscript_eq (lf : loc) (fl : list elem) (i : Z) (w : World) :
  filters w = VList lf -> heap w !! lf = Some fl ->
  (w' <- get ;; subscript (filters w') i)%py w
  = (match getitem fl i with Some x => Ok x | None => Raise IndexError end, w).
Proof.
  intros Hf Hfl. rewrite bind_get, Hf. unfold subscript. simpl iterate.
  rewrite (bind_ok _ _ _ _ _ (deref_eq _ _ _ Hfl)).
  by destruct (getitem fl i).
Qed.

(** The finalize branch in terms of the numbers the selections lead
    with and of Python's indexing. *)
Lemma finalize_filters_by_number (w : World) (ui : gmap string value)
    (strs : list string) (lf : loc) (fl picked : list elem)
    (opts : gmap string value) :
  submitted_list (heap w) ui CONF_FILTER = Some (EStr <$> strs) ->
  filters w = VList lf ->
  heap w !! lf = Some fl ->
  options w = Some opts ->
  Forall (fun s => leading_isascii s = true) strs ->
  Forall2 (fun s x => exists n, leading_number s = Some n
                                /\ getitem fl (n - 1) = Some x) strs picked ->
  finalize_filters ui w = (Ok tt, after_finalize w opts picked).
Proof.
  intros Hsub Hf Hfl Hopts Hascii Hpick. unfold finalize_filters.
  rewrite (bind_ok _ _ _ _ _ (get_or_new_list_eq _ _ _)).
  rewrite (bind_ok _ _ _ _ _ (iterate_submitted _ _ _ _ Hsub)).
  set (w1 := set_heap (heap w ++ [[]]) w).
  assert (exists ns, Forall2 (fun s n => leading_number s = Some n) strs ns
                     /\ Forall2 (fun n x => getitem fl (n - 1) = Some x) ns picked)
    as (ns & Hns & Hget).
  { clear -Hpick. induction Hpick as [|s x strs picked (n & Hn & Hx) _ (ns & H1 & H2)].
    - by exists [].
    - exists (n :: ns). split; by constructor. }
  rewrite (bind_ok _ _ _ _ _ (selected_indices_eq _ _ w1 Hascii Hns)).
  erewrite bind_ok; cycle 1.
  { apply (mapM_ok _ _ picked), Forall2_fmap_l.
    eapply Forall2_impl; [exact Hget|]. intros n x Hx. unfold compose.
    rewrite (subscript_eq lf fl (n - 1) w1 Hf
               ltac:(simpl; by apply lookup_app_l_Some)).
    by rewrite Hx. }
  rewrite (bind_ok _ _ _ _ _ (alloc_eq _ _)).
  unfold bind, get, or_raise, modify, ret. simpl. rewrite Hopts. simpl.
  unfold after_finalize, set_options. simpl.
  rewrite length_app, <- app_assoc. simpl.
  by replace (length (heap w) + 1)%nat with (Datatypes.S (length (heap w))) by lia.
Qed.

(** Finalizing reads only the number a selection leads with, and takes
    it modulo the length of the list as Python's indexing does: with
    [len] records, a number [n] from [1] to [len] picks the record at
    position [n - 1], and a number from [1 - len] to [0] picks from the
    end, [0] the last record.  The text after the first "." plays no
    part.  The leading texts are ASCII text within the interpreter's
    limit on digits. *)
Theorem finalize_picks_by_leading_number (w : World) (ui : gmap string value)
    (strs : list string) (lf : loc) (fl picked : list elem)
    (opts : gmap string value) :
  ui !! CONF_ENTITY_ID = None ->
  submitted_list (heap w) ui CONF_FILTER = Some (EStr <$> strs) ->
  filters w = VList lf ->
  heap w !! lf = Some fl ->
  options w = Some opts ->
  Forall plain_leading strs ->
  Forall2 (fun s x => exists n,
             leading_number s = Some n
             /\ - Z.of_nat (length fl) < n <= Z.of_nat (length fl)
             /\ fl !! Z.to_nat ((n - 1) mod Z.of_nat (length fl)) = Some x)
          strs picked ->
  finalize_filters ui w = (Ok tt, after_finalize w opts picked)
  /\ stored_filters (async_step_general_filters (Some ui) w).2 = Some picked.
Proof.
  intros Hid Hsub Hf Hfl Hopts Hplain Hpick.
  assert (finalize_filters ui w = (Ok tt, after_finalize w opts picked)) as Hfin.
  { eapply finalize_filters_by_number; eauto.
    { eapply Forall_impl; [exact Hplain|]. by intros s [? _]. }
    eapply Forall2_impl; [exact Hpick|]. intros s x (n & Hn & Hr & Hx).
    exists n. split; [done|]. by rewrite getitem_mod by lia. }
  split; [done|]. unfold async_step_general_filters. rewrite Hid.
  rewrite (bind_ok _ _ _ _ _ Hfin).
  eapply stored_filters_extends;
    [apply events_entry_frame, extends_refl|apply stored_filters_after_finalize].
Qed.

Lemma finalize_picks_by_leading_number_witness :
  finalize_filters pick (abc_world [EStr "0. no such text"; EStr " -2 .x"; EStr "2."])
  = (Ok tt, after_finalize
              (abc_world [EStr "0. no such text"; EStr " -2 .x"; EStr "2."]) ∅
              [EDict filter_C; EDict filter_A; EDict filter_B])
  /\ stored_filters
       (async_step_general_filters (Some pick)
          (abc_world [EStr "0. no such text"; EStr " -2 .x"; EStr "2."])).2
     = Some [EDict filter_C; EDict filter_A; EDict filter_B].
Proof.
  apply (finalize_picks_by_leading_number
           (abc_world [EStr "0. no such text"; EStr " -2 .x"; EStr "2."]) pick
           ["0. no such text"; " -2 .x"; "2."] 0%nat
           [EDict filter_A; EDict filter_B; EDict filter_C]
           [EDict filter_C; EDict filter_A; EDict filter_B] ∅
           eq_refl eq_refl eq_refl eq_refl eq_refl).
  { repeat constructor; vm_compute; lia. }
  repeat constructor.
  - exists 0. by vm_compute.
  - exists (-2). by vm_compute.
  - exists 2. by vm_compute.
Defined.

(** When the selections lead with ASCII text and [int] reads no number
    from one of them, the finalize branch stops with [ValueError]: the
    wizard stays where it was, with its draft, its filter list and
    every list of the store as before (the only trace is the unused
    default list of [get]). *)
Theorem finalize_unparsable_selection_raises (w : World)
    (ui : gmap string value) (strs : list string) :
  ui !! CONF_ENTITY_ID = None ->
  submitted_list (heap w) ui CONF_FILTER = Some (EStr <$> strs) ->
  Forall (fun s => leading_isascii s = true) strs ->
  (exists s, s ∈ strs /\ leading_number s = None) ->
  async_step_general_filters (Some ui) w
  = (Raise ValueError, set_heap (heap w ++ [[]]) w).
Proof.
  intros Hid Hsub Hascii (s & Hs & Hnone).
  assert (~ Forall (fun s => is_Some (leading_number s)) strs) as Hn.
  { intros HF. eapply Forall_forall in HF; [|exact Hs].
    rewrite Hnone in HF. by destruct HF. }
  apply first_failing in Hn as (l1 & x & l2 & -> & Hl1 & Hx); [|apply _].
  apply Forall_is_Some_Forall2 in Hl1 as [ns Hns].
  apply Forall_app in Hascii as [Hascii1 Hascii2].
  apply Forall_cons in Hascii2 as [Hx_ascii _].
  unfold async_step_general_filters. rewrite Hid.
  apply bind_raise. unfold finalize_filters.
  rewrite (bind_ok _ _ _ _ _ (get_or_new_list_eq _ _ _)).
  rewrite (bind_ok _ _ _ _ _ (iterate_submitted _ _ _ _ Hsub)).
  apply bind_raise. rewrite fmap_app, fmap_cons.
  apply (mapM_raise _ _ _ _ ((fun n => n - 1) <$> ns)).
  - apply Forall2_fmap. clear -Hns Hascii1.
    induction Hns as [|a n l1 ns Ha _ IH]; [constructor|].
    apply Forall_cons in Hascii1 as [Haa Hascii1]. constructor; [|by apply IH].
    by rewrite (selected_index_plain a _ Haa), Ha.
  - rewrite (selected_index_plain x _ Hx_ascii). destruct (leading_number x); [|done].
    destruct Hx. by eexists.
Qed.

Lemma finalize_unparsable_selection_raises_witness :
  async_step_general_filters (Some pick)
    (abc_world [EStr display_B; EStr "sensor.power, unit: W"])
  = (Raise ValueError,
     set_heap (heap (abc_world [EStr display_B; EStr "sensor.power, unit: W"]) ++ [[]])
       (abc_world [EStr display_B; EStr "sensor.power, unit: W"])).
Proof.
  apply (finalize_unparsable_selection_raises
           (abc_world [EStr display_B; EStr "sensor.power, unit: W"]) pick
           [display_B; "sensor.power, unit: W"] eq_refl eq_refl).
  { by repeat constructor. }
  exists "sensor.power, unit: W". split; [|by vm_compute].
  apply list_elem_of_In. right. by left.
Defined.

(** When every selection leads with a number, written in ASCII text
    within the interpreter's limit on digits, but one of the numbers is
    beyond the filter list in either direction (greater than its length,
    or at most minus its length), the finalize branch stops with
    [IndexError] and leaves the wizard as it was. *)
Theorem finalize_out_of_range_selection_raises (w : World)
    (ui : gmap string value) (strs : list string) (lf : loc)
    (fl : list elem) :
  ui !! CONF_ENTITY_ID = None ->
  submitted_list (heap w) ui CONF_FILTER = Some (EStr <$> strs) ->
  filters w = VList lf ->
  heap w !! lf = Some fl ->
  Forall plain_leading strs ->
  Forall (fun s => is_Some (leading_number s)) strs ->
  (exists s n, s ∈ strs /\ leading_number s = Some n
               /\ (n <= - Z.of_nat (length fl) \/ Z.of_nat (length fl) < n)) ->
  async_step_general_filters (Some ui) w
  = (Raise IndexError, set_heap (heap w ++ [[]]) w).
Proof.
  intros Hid Hsub Hf Hfl Hplain Hall (s & n & Hs & Hn & Hrange).
  assert (Forall (fun s => leading_isascii s = true) strs) as Hascii.
  { eapply Forall_impl; [exact Hplain|]. by intros ? [? _]. }
  apply Forall_is_Some_Forall2 in Hall as [ns Hns].
  assert (~ Forall (fun i => is_Some (getitem fl i)) ((fun n => n - 1) <$> ns))
    as Hbad.
  { intros HF. apply list_elem_of_lookup in Hs as [k Hk].
    destruct (Forall2_lookup_l _ _ _ _ _ Hns Hk) as (n' & Hn' & Hlead).
    rewrite Hn in Hlead. injection Hlead as <-.
    eapply Forall_lookup_1 in HF; [|by rewrite list_lookup_fmap, Hn'].
    rewrite getitem_out_of_range in HF by lia. by destruct HF. }
  apply first_failing in Hbad as (l1 & i & l2 & Heq & Hl1 & Hi); [|apply _].
  apply Forall_is_Some_Forall2 in Hl1 as [xs Hxs].
  set (w1 := set_heap (heap w ++ [[]]) w).
  assert (heap w1 !! lf = Some fl) as Hfl1 by (simpl; by apply lookup_app_l_Some).
  unfold async_step_general_filters. rewrite Hid.
  apply bind_raise. unfold finalize_filters.
  rewrite (bind_ok _ _ _ _ _ (get_or_new_list_eq _ _ _)).
  rewrite (bind_ok _ _ _ _ _ (iterate_submitted _ _ _ _ Hsub)).
  rewrite (bind_ok _ _ _ _ _ (selected_indices_eq _ _ _ Hascii Hns)).
  apply bind_raise. rewrite Heq.
  apply (mapM_raise _ _ _ _ xs).
  - eapply Forall2_impl; [exact Hxs|]. intros a x Ha. cbv beta.
    by rewrite (subscript_eq lf fl a w1 Hf Hfl1), Ha.
  - rewrite (subscript_eq lf fl i w1 Hf Hfl1).
    destruct (getitem fl i); [|done]. destruct Hi. by eexists.
Qed.

Lemma finalize_out_of_range_selection_raises_witness :
  async_step_general_filters (Some pick)
    (abc_world [EStr display_B; EStr "4. sensor.gone, unit: W"])
  = (Raise IndexError,
     set_heap (heap (abc_world [EStr display_B; EStr "4. sensor.gone, unit: W"]) ++ [[]])
       (abc_world [EStr display_B; EStr "4. sensor.gone, unit: W"])).
Proof.
  apply (finalize_out_of_range_selection_raises
           (abc_world [EStr display_B; EStr "4. sensor.gone, unit: W"]) pick
           [display_B; "4. sensor.gone, unit: W"] 0%nat
           [EDict filter_A; EDict filter_B; EDict filter_C]
           eq_refl eq_refl eq_refl eq_refl).
  - repeat constructor; vm_compute; lia.
  - constructor; [vm_compute; by eexists|].
    constructor; [vm_compute; by eexists|]. constructor.
  - exists "4. sensor.gone, unit: W", 4. split_and!.
    + apply list_elem_of_In. right. by left.
    + by vm_compute.
    + right. simpl. lia.
Defined.

(** *** The choices of [domain_entity_filters] *)

Lemma str_le_total : Total str_le.
Proof.
  intros a b. unfold str_le.
  destruct (String.leb_total a b) as [H|H]; rewrite H; auto.
Qed.

Lemma sorted_Sorted (l : list string) : Sorted str_le (sorted l).
Proof. apply (@Sorted_merge_sort _ str_le _ str_le_total). Qed.

Lemma sorted_elements_NoDup (X : gset string) : NoDup (sorted (elements X)).
Proof. unfold sorted. rewrite merge_sort_Permutation. apply NoDup_elements. Qed.

(** The entity choices are exactly the remote's entity names together
    with the persisted include and exclude entities, and the domain
    choices exactly the texts before the first "." of the entity
    choices; both lists are in ascending order and name nothing twice. *)
Theorem domain_and_entity_choices (w : World) (remote : gset string)
    (inc exc : list string) :
  remote_entities w = Some remote ->
  persisted_names w CONF_INCLUDE_ENTITIES inc ->
  persisted_names w CONF_EXCLUDE_ENTITIES exc ->
  exists domains entities : list string,
    (_domains_and_entities w).1 = Ok (domains, entities)
    /\ (forall e, e ∈ entities <-> e ∈ remote \/ e ∈ inc \/ e ∈ exc)
    /\ (forall d, d ∈ domains
                  <-> exists e, e ∈ entities /\ getitem (split "." e) 0 = Some d)
    /\ Sorted str_le entities /\ NoDup entities
    /\ Sorted str_le domains /\ NoDup domains.
Proof.
  intros Hr Hinc Hexc.
  pose proof (domains_and_entities_eq w remote inc exc Hr Hinc Hexc) as Hde.
  cbv zeta in Hde.
  set (entities := sorted (elements (remote ∪ list_to_set inc ∪ list_to_set exc))) in *.
  set (domains := sorted (elements (list_to_set
         ((fun e => default EmptyString (getitem (split "." e) 0)) <$> entities)
         : gset string))) in *.
  exists domains, entities. rewrite Hde.
  split_and!; [done| | |apply sorted_Sorted|apply sorted_elements_NoDup
               |apply sorted_Sorted|apply sorted_elements_NoDup].
  - intros e. unfold entities. rewrite elem_of_sorted, elem_of_elements.
    rewrite !elem_of_union, !elem_of_list_to_set. tauto.
  - intros d. unfold domains.
    rewrite elem_of_sorted, elem_of_elements, elem_of_list_to_set, list_elem_of_fmap.
    split.
    + intros (e & -> & He). exists e. split; [done|].
      destruct (domain_of_eq e w) as [_ [d Hd]]. by rewrite Hd.
    + intros (e & He & Hd). exists e. split; [|done]. by rewrite Hd.
Qed.

Lemma domain_and_entity_choices_witness :
  exists domains entities : list string,
    (_domains_and_entities stale_world).1 = Ok (domains, entities)
    /\ (forall e, e ∈ entities
                  <-> e ∈ ({["light.hall"; "switch.pump"]} : gset string)
                      \/ e ∈ ["sensor.gone"; "light.hall"] \/ e ∈ ([] : list string))
    /\ (forall d, d ∈ domains
                  <-> exists e, e ∈ entities /\ getitem (split "." e) 0 = Some d)
    /\ Sorted str_le entities /\ NoDup entities
    /\ Sorted str_le domains /\ NoDup domains.
Proof.
  exact (domain_and_entity_choices stale_world {["light.hall"; "switch.pump"]}
           ["sensor.gone"; "light.hall"] [] eq_refl eq_refl eq_refl).
Defined.

(** Without a remote connection under the entry's id the look-up of
    line 253 fails: the choices cannot be built and nothing is written. *)
Theorem domain_entity_form_needs_remote (w : World) :
  remote_entities w = None ->
  async_step_domain_entity_filters None w = (Raise KeyError, w)
  /\ forall ui, (async_step_init (Some ui) w).1 = Raise KeyError.
Proof.
  intros Hr.
  assert (forall w0, remote_entities w0 = None ->
                     async_step_domain_entity_filters None w0 = (Raise KeyError, w0))
    as H.
  { intros w0 H0. unfold async_step_domain_entity_filters. apply bind_raise.
    unfold _domains_and_entities. rewrite bind_get, H0. reflexivity. }
  split; [by apply H|]. intros ui. unfold async_step_init.
  rewrite bind_modify. by rewrite H.
Qed.

Lemma domain_entity_form_needs_remote_witness :
  async_step_domain_entity_filters None (init_handler [] ∅ None)
  = (Raise KeyError, init_handler [] ∅ None)
  /\ forall ui, (async_step_init (Some ui) (init_handler [] ∅ None)).1
                = Raise KeyError.
Proof. exact (domain_entity_form_needs_remote (init_handler [] ∅ None) eq_refl). Defined.

(** *** The order of the steps *)

Lemma bind_Ok_inv {S A B} (c : M S A) (k : A -> M S B) (s s' : S) (b : B) :
  bind c k s = (Ok b, s') ->
  exists a s1, c s = (Ok a, s1) /\ k a s1 = (Ok b, s').
Proof.
  unfold bind. destruct (c s) as [[a|e] s1]; [|done]. intros H. by exists a, s1.
Qed.

Ltac unbind H :=
  repeat (lazymatch type of H with
          | bind _ _ _ = _ => apply bind_Ok_inv in H as (? & ? & _ & H); cbv beta in H
          end).

Lemma events_entry_form (w w' : World) (r : FlowResult) :
  async_step_events None w = (Ok r, w') ->
  exists schema, r = ShowForm "events" schema ∅.
Proof.
  unfold async_step_events. intros H. unbind H.
  injection H as <- _. by eexists.
Qed.

Lemma general_filters_form_form (v : value) (w w' : World) (r : FlowResult) :
  general_filters_form v w = (Ok r, w') ->
  exists schema, r = ShowForm "general_filters" schema ∅.
Proof.
  unfold general_filters_form. intros H. unbind H.
  injection H as <- _. by eexists.
Qed.

Lemma general_filters_entry_form (w w' : World) (r : FlowResult) :
  async_step_general_filters None w = (Ok r, w') ->
  exists schema, r = ShowForm "general_filters" schema ∅.
Proof.
  unfold async_step_general_filters. intros H. unbind H.
  by eapply general_filters_form_form.
Qed.

Lemma domain_entity_entry_form (w w' : World) (r : FlowResult) :
  async_step_domain_entity_filters None w = (Ok r, w') ->
  exists schema, r = ShowForm "domain_entity_filters" schema ∅.
Proof.
  unfold async_step_domain_entity_filters. intros H.
  apply bind_Ok_inv in H as ([domains entities] & ? & _ & H). unbind H.
  injection H as <- _. by eexists.
Qed.

(** The wizard's steps come in one order.  Shown without a submission,
    a step shows its own form.  A submission that adds a filter or an
    event name shows the same step again; any other submission moves to
    the next step, and in the events step it completes the wizard with
    an empty title.  No step shows an error on its form. *)
Theorem steps_follow_in_order (step_id : string)
    (user_input : option (gmap string value)) (w w' : World) (r : FlowResult) :
  step step_id user_input w = (Ok r, w') ->
  match user_input with
  | None => exists schema, r = ShowForm step_id schema ∅
  | Some ui =>
      if adds_one step_id ui then exists schema, r = ShowForm step_id schema ∅
      else if String.eqb step_id "events"
           then exists data, r = CreateEntry "" data
           else exists schema, r = ShowForm (next_step step_id) schema ∅
  end.
Proof.
  unfold step, adds_one, next_step.
  destruct (String.eqb_spec step_id "init") as [->|_].
  { intros H. simpl. unfold async_step_init in H.
    destruct user_input as [ui|]; unbind H.
    - by eapply domain_entity_entry_form.
    - injection H as <- _. by eexists. }
  destruct (String.eqb_spec step_id "domain_entity_filters") as [->|_].
  { intros H. simpl. destruct user_input as [ui|].
    - unfold async_step_domain_entity_filters in H. unbind H.
      by eapply general_filters_entry_form.
    - by eapply domain_entity_entry_form. }
  destruct (String.eqb_spec step_id "general_filters") as [->|_].
  { intros H. simpl.
    destruct user_input as [ui|]; [|by eapply general_filters_entry_form].
    unfold async_step_general_filters in H.
    destruct (ui !! CONF_ENTITY_ID) as [v|]; unbind H.
    - rewrite bool_decide_eq_true_2 by done. simpl.
      by eapply general_filters_form_form.
    - rewrite bool_decide_eq_false_2 by (by intros [? ?]). simpl.
      by eapply events_entry_form. }
  destruct (String.eqb_spec step_id "events") as [->|_]; [|done].
  intros H. simpl. destruct user_input as [ui|]; [|by eapply events_entry_form].
  unfold async_step_events in H.
  destruct (ui !! ADD_NEW_EVENT) as [v|]; unbind H.
  - rewrite bool_decide_eq_true_2 by done. simpl.
    injection H as <- _. by eexists.
  - rewrite bool_decide_eq_false_2 by (by intros [? ?]). simpl.
    injection H as <- _. by eexists.
Qed.

Lemma steps_follow_in_order_witness :
  exists schema,
    (step "domain_entity_filters" (Some ∅) (set_options ∅ twice_world)).1
    = Ok (ShowForm (next_step "domain_entity_filters") schema ∅).
Proof.
  pose proof (steps_follow_in_order "domain_entity_filters" (Some ∅)
                (set_options ∅ twice_world)) as H.
  destruct (step "domain_entity_filters" (Some ∅) (set_options ∅ twice_world))
    as [[r|e] w'] eqn:E.
  - destruct (H w' r eq_refl) as [schema ->]. by exists schema.
  - vm_compute in E. discriminate E.
Defined.

(** *** What no step does *)































(** *** Entering the events step *)

Lemma persisted_names_truthy (w : World) (k : string) (names : list string) :
  persisted_names w k names ->
  truthy (dict_get (entry_options w) k) w
  = (Ok (match names with [] => false | _ => true end), w).
Proof.
  unfold persisted_names, dict_get.
  destruct (entry_options w !! k) as [[a|l]|]; [done| |by intros ->].
  intros H. unfold truthy. rewrite (bind_ok _ _ _ _ _ (deref_eq _ _ _ H)).
  by destruct names.
Qed.

Lemma persisted_names_app (w : World) (ext : list (list elem)) (k : string)
    (names : list string) :
  persisted_names w k names -> persisted_names (set_heap (heap w ++ ext) w) k names.
Proof.
  unfold persisted_names. simpl.
  destruct (entry_options w !! k) as [[a|l]|]; [done| |done].
  apply lookup_app_l_Some.
Qed.

Lemma default_persisted_names (w : World) (k : string) (names : list string) :
  persisted_names w k names ->
  _default k w
  = (Ok (match names with
         | [] => UNDEFINED
         | _ => Given (dict_get (entry_options w) k)
         end), w).
Proof.
  intros Hp. unfold _default. rewrite bind_get. cbv zeta.
  rewrite (bind_ok _ _ _ _ _ (persisted_names_truthy _ _ _ Hp)).
  by destruct names.
Qed.

Lemma events_entry_eq (w : World) (names : list string) :
  persisted_names w CONF_SUBSCRIBE_EVENTS names ->
  exists ext,
    async_step_events None w
    = (Ok (events_form
             (match names with
              | [] => UNDEFINED
              | _ => Given (dict_get (entry_options w) CONF_SUBSCRIBE_EVENTS)
              end)
             (list_to_set names)),
       set_events (list_to_set names) (set_heap (heap w ++ ext) w)).
Proof.
  intros Hp. unfold async_step_events. rewrite bind_get. cbv zeta.
  rewrite (bind_ok _ _ _ _ _ (persisted_names_truthy _ _ _ Hp)).
  destruct names as [|n names].
  - exists [[]].
    assert ((l <- alloc [] ;; ret (VList l))%py w
            = (Ok (VList (length (heap w))), set_heap (heap w ++ [[]]) w)) as Hal
      by reflexivity.
    rewrite (bind_ok _ _ _ _ _ Hal).
    assert (set_of (VList (length (heap w))) (set_heap (heap w ++ [[]]) w)
            = (Ok ∅, set_heap (heap w ++ [[]]) w)) as Hset.
    { assert (heap (set_heap (heap w ++ [[]]) w) !! length (heap w) = Some [])
        as Hl0 by (simpl; by rewrite lookup_app_r, Nat.sub_diag by lia).
      unfold set_of. simpl iterate.
      by rewrite (bind_ok _ _ _ _ _ (deref_eq _ [] _ Hl0)). }
    rewrite (bind_ok _ _ _ _ _ Hset), bind_modify.
    assert (persisted_names (set_events ∅ (set_heap (heap w ++ [[]]) w))
              CONF_SUBSCRIBE_EVENTS []) as Hp'
      by exact (persisted_names_app w [[]] _ _ Hp).
    by rewrite (bind_ok _ _ _ _ _ (default_persisted_names _ _ _ Hp')).
  - exists []. rewrite bind_ret.
    assert (set_of (dict_get (entry_options w) CONF_SUBSCRIBE_EVENTS) w
            = (Ok (list_to_set (n :: names)), w)) as Hset.
    { unfold persisted_names in Hp. unfold dict_get.
      destruct (entry_options w !! CONF_SUBSCRIBE_EVENTS) as [[a|l]|]; [done| |done].
      unfold set_of. simpl iterate.
      rewrite (bind_ok _ _ _ _ _ (deref_eq _ _ _ Hp)).
      by rewrite (bind_ok _ _ _ _ _ (mapM_hash_elem _ _)). }
    rewrite (bind_ok _ _ _ _ _ Hset), bind_modify.
    assert (persisted_names (set_events (list_to_set (n :: names)) w)
              CONF_SUBSCRIBE_EVENTS (n :: names)) as Hp' by exact Hp.
    rewrite (bind_ok _ _ _ _ _ (default_persisted_names _ _ _ Hp')).
    rewrite app_nil_r. by destruct w.
Qed.

(** On first entry the events step takes the persisted subscribed
    events as its event set, each name once, and pre-selects the
    persisted list; with no events persisted (never configured, or an
    empty list) the set is empty and nothing is pre-selected.  The
    draft, the wizard's filter list and the persisted options are left
    alone. *)
Theorem events_first_entry (w : World) (names : list string) :
  persisted_names w CONF_SUBSCRIBE_EVENTS names ->
  let r := async_step_events None w in
  r.1 = Ok (ShowForm "events"
              [ Optional CONF_SUBSCRIBE_EVENTS
                  (match names with
                   | [] => UNDEFINED
                   | _ => Given (dict_get (entry_options w) CONF_SUBSCRIBE_EVENTS)
                   end)
                  (MultiSelectSet (list_to_set names));
                Optional ADD_NEW_EVENT UNDEFINED IsStr ]
              ∅)
  /\ events r.2 = Some (list_to_set names)
  /\ (forall n, n ∈ (list_to_set names : gset string) <-> n ∈ names)
  /\ options r.2 = options w /\ filters r.2 = filters w
  /\ entry_options r.2 = entry_options w.
Proof.
  intros Hp. cbv zeta. destruct (events_entry_eq w names Hp) as [ext ->].
  split_and!; try done. intros n. apply elem_of_list_to_set.
Qed.

Lemma events_first_entry_witness :
  let w := init_handler [[EStr "state_changed"; EStr "call_service"; EStr "state_changed"]]
             {[CONF_SUBSCRIBE_EVENTS := VList 0%nat]} (Some ∅) in
  let names := ["state_changed"; "call_service"; "state_changed"] in
  let r := async_step_events None w in
  r.1 = Ok (ShowForm "events"
              [ Optional CONF_SUBSCRIBE_EVENTS
                  (Given (dict_get (entry_options w) CONF_SUBSCRIBE_EVENTS))
                  (MultiSelectSet (list_to_set names));
                Optional ADD_NEW_EVENT UNDEFINED IsStr ]
              ∅)
  /\ events r.2 = Some (list_to_set names)
  /\ (forall n, n ∈ (list_to_set names : gset string) <-> n ∈ names)
  /\ options r.2 = options w /\ filters r.2 = filters w
  /\ entry_options r.2 = entry_options w.
Proof.
  exact (events_first_entry
           (init_handler [[EStr "state_changed"; EStr "call_service"; EStr "state_changed"]]
              {[CONF_SUBSCRIBE_EVENTS := VList 0%nat]} (Some ∅))
           ["state_changed"; "call_service"; "state_changed"] eq_refl).
Defined.

(** *** Adding a filter, then finalizing *)

(** The add branch with the world it leaves written out. *)
Lemma add_filter_eq (w : World) (ui : gmap string value) (e u a b : scalar)
    (lf : loc) (fs : list Filter) (sel : list elem) :
  ui !! CONF_ENTITY_ID = Some (VScalar e) ->
  dict_get ui CONF_UNIT_OF_MEASUREMENT = VScalar u ->
  dict_get ui CONF_ABOVE = VScalar a ->
  dict_get ui CONF_BELOW = VScalar b ->
  filters w = VList lf ->
  heap w !! lf = Some (EDict <$> fs) ->
  submitted_list (heap w) ui CONF_FILTER = Some sel ->
  ui !! CONF_FILTER <> Some (VList lf) ->
  let new := mkFilter e u a b in
  exists ls,
    ls <> lf
    /\ (heap w ++ [[]]) !! ls = Some sel
    /\ async_step_general_filters (Some ui) w
       = (Ok (ShowForm "general_filters"
                [ Optional CONF_FILTER (Given (VList ls))
                    (MultiSelect (filter_strs_from 0 (fs ++ [new])));
                  Optional CONF_ENTITY_ID UNDEFINED IsStr;
                  Optional CONF_UNIT_OF_MEASUREMENT UNDEFINED IsStr;
                  Optional CONF_ABOVE UNDEFINED CoerceFloat;
                  Optional CONF_BELOW UNDEFINED CoerceFloat ]
                ∅),
          set_heap
            (<[lf := (EDict <$> fs) ++ [EDict new]]>
               (<[ls := sel ++ [EStr (_filter_str (Z.of_nat (length fs)) new)]]>
                  (heap w ++ [[]])))
            w).
Proof.
  intros He Hu Ha Hb Hf Hfl Hsel Hne. cbv zeta.
  set (new := mkFilter e u a b).
  set (x := EStr (_filter_str (Z.of_nat (length fs)) new)).
  set (h1 := heap w ++ [[]]).
  assert (lf < length (heap w))%nat as Hlf by (by eapply lookup_lt_Some).
  assert (h1 !! lf = Some (EDict <$> fs)) as Hfl1 by (by apply lookup_app_l_Some).
  destruct (submitted_list_loc _ _ _ _ Hsel) as (ls & Hchosen & Hsel1).
  fold h1 in Hsel1.
  assert (ls <> lf) as Hls.
  { unfold submitted_list in Hsel.
    destruct (ui !! CONF_FILTER) as [[s|l]|]; [done| |].
    - injection Hchosen as <-. congruence.
    - injection Hchosen as <-. lia. }
  exists ls. split_and!; [done|done|].
  set (h2 := <[ls := sel ++ [x]]> h1).
  set (h3 := <[lf := (EDict <$> fs) ++ [EDict new]]> h2).
  assert (h2 !! lf = Some (EDict <$> fs)) as Hfl2.
  { subst h2. by rewrite list_lookup_insert_ne. }
  assert (h3 !! lf = Some (EDict <$> (fs ++ [new]))) as Hfl3.
  { subst h3. rewrite list_lookup_insert_eq, fmap_app; [done|].
    by eapply lookup_lt_Some. }
  unfold async_step_general_filters. rewrite He.
  rewrite (bind_ok _ _ _ _ _ (get_or_new_list_eq _ _ _)), Hchosen.
  fold h1. set (w1 := set_heap h1 w).
  assert (new_filter_of ui w1 = (Ok new, w1)) as Hnew.
  { unfold new_filter_of, FILTER_OPTIONS. cbn [mapM].
    replace (dict_get ui CONF_ENTITY_ID) with (VScalar e)
      by (unfold dict_get; by rewrite He).
    by rewrite Hu, Ha, Hb. }
  rewrite (bind_ok _ _ _ _ _ Hnew).
  rewrite (bind_ok _ _ _ _ _ (append_method_eq ls w1)). rewrite bind_get.
  assert (len (filters w1) w1 = (Ok (Z.of_nat (length fs)), w1)) as Hlen.
  { unfold len. simpl filters. rewrite Hf. simpl iterate.
    rewrite (bind_ok _ _ _ _ _ (deref_eq _ _ w1 Hfl1)).
    by rewrite length_fmap. }
  rewrite (bind_ok _ _ _ _ _ Hlen). fold x.
  rewrite (bind_ok _ _ _ _ _ (append_eq ls x sel w1 Hsel1)).
  simpl filters. rewrite Hf.
  rewrite (bind_ok _ _ _ _ _ (append_value_eq lf (EDict new) (EDict <$> fs)
                                (set_heap h2 w) Hfl2)).
  unfold general_filters_form. rewrite bind_get. simpl filters. rewrite Hf.
  by rewrite (bind_ok _ _ _ _ _ (filter_strings_eq lf (fs ++ [new])
                                   (set_heap h3 w) Hfl3)).
Qed.

(** A filter added through the form is kept by the finalize that
    follows: when the form shown again after the add is submitted with
    its pre-selection (the selection the add was submitted with, then
    the new filter's display string) and without an entity id, the
    draft's filter list is the records of that earlier selection
    followed by the new record. *)
Theorem added_filter_is_kept_by_finalize (w : World)
    (ui : gmap string value) (e u a b : scalar) (lf : loc)
    (fs : list Filter) (sel : list (nat * Filter)) (picked : list elem)
    (opts : gmap string value) :
  ui !! CONF_ENTITY_ID = Some (VScalar e) ->
  dict_get ui CONF_UNIT_OF_MEASUREMENT = VScalar u ->
  dict_get ui CONF_ABOVE = VScalar a ->
  dict_get ui CONF_BELOW = VScalar b ->
  filters w = VList lf ->
  heap w !! lf = Some (EDict <$> fs) ->
  options w = Some opts ->
  submitted_list (heap w) ui CONF_FILTER
    = Some ((fun p => EStr (_filter_str (Z.of_nat p.1) p.2)) <$> sel) ->
  Forall2 (fun p x => (EDict <$> fs) !! p.1 = Some x) sel picked ->
  ui !! CONF_FILTER <> Some (VList lf) ->
  exists (ls : loc) (schema : list field),
    (async_step_general_filters (Some ui) w).1
    = Ok (ShowForm "general_filters"
            (Optional CONF_FILTER (Given (VList ls))
               (MultiSelect (filter_strs_from 0 (fs ++ [mkFilter e u a b])))
             :: schema) ∅)
    /\ forall ui', ui' !! CONF_ENTITY_ID = None ->
         ui' !! CONF_FILTER = Some (VList ls) ->
         stored_filters
           (async_step_general_filters (Some ui')
              (async_step_general_filters (Some ui) w).2).2
         = Some (picked ++ [EDict (mkFilter e u a b)]).
Proof.
  intros He Hu Ha Hb Hf Hfl Hopts Hsel Hpick Hne.
  destruct (add_filter_eq w ui e u a b lf fs _ He Hu Ha Hb Hf Hfl Hsel Hne)
    as (ls & Hls & Hlk & ->).
  set (new := mkFilter e u a b).
  exists ls. eexists. split; [reflexivity|]. intros ui' Hid' Hf'. cbn [snd].
  set (x := EStr (_filter_str (Z.of_nat (length fs)) new)).
  set (h1 := <[ls := _ ++ [x]]> (heap w ++ [[]])).
  set (w2 := set_heap (<[lf := (EDict <$> fs) ++ [EDict new]]> h1) w).
  assert (ls < length (heap w ++ [[]]))%nat as Hlt by (by eapply lookup_lt_Some).
  assert (lf < length (heap w))%nat as Hlf by (by eapply lookup_lt_Some).
  apply (general_filters_finalize w2 ui' (sel ++ [(length fs, new)]) lf
           ((EDict <$> fs) ++ [EDict new]) _ opts Hid').
  - unfold submitted_list. rewrite Hf'. simpl. unfold h1.
    rewrite list_lookup_insert_ne by done.
    rewrite list_lookup_insert_eq by done. by rewrite fmap_app.
  - done.
  - simpl. apply list_lookup_insert_eq. unfold h1. rewrite length_insert.
    rewrite length_app. simpl. lia.
  - done.
  - apply Forall2_app.
    + eapply Forall2_impl; [exact Hpick|]. intros p y Hy. simpl.
      by apply lookup_app_l_Some.
    + constructor; [|constructor]. simpl.
      rewrite lookup_app_r by (rewrite length_fmap; lia).
      by rewrite length_fmap, Nat.sub_diag.
Qed.

Lemma added_filter_is_kept_by_finalize_witness :
  exists (ls : loc) (schema : list field),
    (async_step_general_filters (Some add_one) (abc_world [EStr display_B])).1
    = Ok (ShowForm "general_filters"
            (Optional CONF_FILTER (Given (VList ls))
               (MultiSelect
                  (filter_strs_from 0
                     ([filter_A; filter_B; filter_C]
                      ++ [mkFilter (SStr "sensor.door.1") SNone (SFloat "5.0") SNone])))
             :: schema) ∅)
    /\ forall ui', ui' !! CONF_ENTITY_ID = None ->
         ui' !! CONF_FILTER = Some (VList ls) ->
         stored_filters
           (async_step_general_filters (Some ui')
              (async_step_general_filters (Some add_one)
                 (abc_world [EStr display_B])).2).2
         = Some ([EDict filter_B]
                 ++ [EDict (mkFilter (SStr "sensor.door.1") SNone (SFloat "5.0") SNone)]).
Proof.
  apply (added_filter_is_kept_by_finalize (abc_world [EStr display_B]) add_one
           (SStr "sensor.door.1") SNone (SFloat "5.0") SNone 0%nat
           [filter_A; filter_B; filter_C] [(1%nat, filter_B)] [EDict filter_B] ∅
           eq_refl eq_refl eq_refl eq_refl eq_refl eq_refl eq_refl eq_refl).
  - by repeat constructor.
  - vm_compute. intros [=].
Defined.

(** *** A whole run *)

Lemma persisted_filters_app (w : World) (ext : list (list elem))
    (fs : list Filter) (w' : World) :
  entry_options w' = entry_options w -> heap w' = heap w ++ ext ->
  persisted_filters w fs -> persisted_filters w' fs.
Proof.
  unfold persisted_filters. intros -> ->.
  destruct (entry_options w !! CONF_FILTER) as [[a|l]|]; [done| |done].
  apply lookup_app_l_Some.
Qed.

Lemma persisted_names_ext (w : World) (ext : list (list elem)) (k : string)
    (names : list string) (w' : World) :
  entry_options w' = entry_options w -> heap w' = heap w ++ ext ->
  persisted_names w k names -> persisted_names w' k names.
Proof.
  unfold persisted_names. intros -> ->.
  destruct (entry_options w !! k) as [[a|l]|]; [done| |done].
  apply lookup_app_l_Some.
Qed.

(** Submitting the init form. *)
Lemma init_submit_eq (w : World) (ui : gmap string value)
    (remote : gset string) (inc exc : list string) :
  remote_entities w = Some remote ->
  persisted_names w CONF_INCLUDE_ENTITIES inc ->
  persisted_names w CONF_EXCLUDE_ENTITIES exc ->
  store_ok w ->
  exists schema,
    async_step_init (Some ui) w
    = (Ok (ShowForm "domain_entity_filters" schema ∅),
       set_heap (heap w ++ [[]; []]) (set_options ui w)).
Proof.
  intros Hr Hinc Hexc Hok. unfold async_step_init. rewrite bind_modify.
  set (w1 := set_options ui w).
  pose proof (domains_and_entities_eq w1 remote inc exc Hr Hinc Hexc) as Hde.
  cbv zeta in Hde.
  set (w2 := set_heap (heap w1 ++ [[]; []]) w1) in *.
  assert (forall conf, exists d, _default conf w2 = (Ok d, w2)) as Hd.
  { intros conf. apply default_eq. intros l Hl. simpl in *.
    destruct (Hok conf l Hl) as [xs Hxs]. exists xs. by apply lookup_app_l_Some. }
  destruct (Hd CONF_INCLUDE_DOMAINS) as [d1 H1].
  destruct (Hd CONF_INCLUDE_ENTITIES) as [d2 H2].
  destruct (Hd CONF_EXCLUDE_DOMAINS) as [d3 H3].
  destruct (Hd CONF_EXCLUDE_ENTITIES) as [d4 H4].
  eexists. unfold async_step_domain_entity_filters.
  rewrite (bind_ok _ _ _ _ _ Hde).
  rewrite (bind_ok _ _ _ _ _ H1), (bind_ok _ _ _ _ _ H2).
  rewrite (bind_ok _ _ _ _ _ H3), (bind_ok _ _ _ _ _ H4).
  reflexivity.
Qed.

(** Entering [general_filters], whether or not filters are persisted. *)
Lemma general_filters_entry_eq (w : World) (fs : list Filter) :
  persisted_filters w fs ->
  exists schema lf,
    async_step_general_filters None w
    = (Ok (ShowForm "general_filters" schema ∅),
       set_filters (VList lf)
         (set_heap (heap w ++ [[]; EStr <$> filter_strs_from 0 fs]) w))
    /\ (heap w ++ [[]; EStr <$> filter_strs_from 0 fs]) !! lf
       = Some (EDict <$> fs).
Proof.
  intros Hp. unfold async_step_general_filters. rewrite bind_get.
  rewrite (bind_ok _ _ _ _ _ (get_or_new_list_eq _ _ _)), bind_modify.
  set (lf := match entry_options w !! CONF_FILTER with
             | Some (VList l) => l | _ => length (heap w) end).
  assert (match entry_options w !! CONF_FILTER with
          | Some v => v | None => VList (length (heap w)) end = VList lf
          /\ (heap w ++ [[]]) !! lf = Some (EDict <$> fs)) as [-> Hlf].
  { unfold persisted_filters in Hp. subst lf.
    destruct (entry_options w !! CONF_FILTER) as [[a|l]|]; [done| |].
    - split; [done|]. by apply lookup_app_l_Some.
    - subst fs. split; [done|]. by rewrite lookup_app_r, Nat.sub_diag by lia. }
  set (w1 := set_filters (VList lf) (set_heap (heap w ++ [[]]) w)).
  rewrite (bind_ok _ _ _ _ _ (filter_strings_eq lf fs w1 Hlf)).
  rewrite (bind_ok _ _ _ _ _ (alloc_eq _ _)).
  unfold general_filters_form. rewrite bind_get. simpl filters.
  assert (((heap w ++ [[]]) ++ [EStr <$> filter_strs_from 0 fs]) !! lf
          = Some (EDict <$> fs)) as Hlf2 by (by apply lookup_app_l_Some).
  rewrite (bind_ok _ _ _ _ _
             (filter_strings_eq lf fs
                (set_heap (heap w1 ++ [EStr <$> filter_strs_from 0 fs]) w1) Hlf2)).
  eexists _, lf. split.
  - unfold ret, set_filters, set_heap. simpl. by rewrite <- app_assoc.
  - change [[]; EStr <$> filter_strs_from 0 fs]
      with ([[]] ++ [EStr <$> filter_strs_from 0 fs]).
    by rewrite app_assoc.
Qed.

(** Submitting the domain and entity form. *)
Lemma domain_submit_eq (w : World) (ui opts : gmap string value)
    (fs : list Filter) :
  options w = Some opts ->
  persisted_filters w fs ->
  exists schema lf,
    async_step_domain_entity_filters (Some ui) w
    = (Ok (ShowForm "general_filters" schema ∅),
       set_filters (VList lf)
         (set_heap (heap w ++ [[]; EStr <$> filter_strs_from 0 fs])
            (set_options (ui ∪ opts) w)))
    /\ (heap w ++ [[]; EStr <$> filter_strs_from 0 fs]) !! lf
       = Some (EDict <$> fs).
Proof.
  intros Hopts Hp. unfold async_step_domain_entity_filters.
  rewrite bind_get, Hopts. simpl or_raise. rewrite bind_ret, bind_modify.
  apply (general_filters_entry_eq (set_options (ui ∪ opts) w) fs Hp).
Qed.

(** Finalizing the filters, through to the events form. *)
Lemma general_finalize_eq (w : World) (ui : gmap string value)
    (sel : list (nat * Filter)) (lf : loc) (fl picked : list elem)
    (opts : gmap string value) (names : list string) :
  ui !! CONF_ENTITY_ID = None ->
  submitted_list (heap w) ui CONF_FILTER
    = Some ((fun p => EStr (_filter_str (Z.of_nat p.1) p.2)) <$> sel) ->
  filters w = VList lf ->
  heap w !! lf = Some fl ->
  options w = Some opts ->
  Forall2 (fun p x => fl !! p.1 = Some x) sel picked ->
  persisted_names w CONF_SUBSCRIBE_EVENTS names ->
  exists schema ext,
    async_step_general_filters (Some ui) w
    = (Ok (ShowForm "events" schema ∅),
       set_events (list_to_set names)
         (set_heap (heap w ++ [[]; picked] ++ ext)
            (set_options (<[CONF_FILTER := VList (Datatypes.S (length (heap w)))]> opts)
               w))).
Proof.
  intros Hid Hsub Hf Hfl Hopts Hpick Hn.
  unfold async_step_general_filters. rewrite Hid.
  rewrite (bind_ok _ _ _ _ _
             (finalize_filters_picks _ _ _ _ _ _ _ Hsub Hf Hfl Hopts Hpick)).
  assert (persisted_names (after_finalize w opts picked) CONF_SUBSCRIBE_EVENTS names)
    as Hn' by (by eapply (persisted_names_ext w [[]; picked])).
  destruct (events_entry_eq _ names Hn') as [ext ->].
  eexists _, ext. unfold events_form. f_equal.
  unfold after_finalize, set_events, set_heap, set_options. simpl.
  by rewrite <- app_assoc.
Qed.

Lemma show_list (h : list (list elem)) (l : loc) (xs : list elem) :
  h !! l = Some xs -> show h (VList l) = ShownList xs.
Proof. unfold show. by intros ->. Qed.

Lemma feed_cons (sid : string) (schema : list field) (errors : gmap string string)
    (ui : gmap string value) (rest : list (gmap string value)) (w : World) :
  feed (ShowForm sid schema errors) (ui :: rest) w
  = (r' <- step sid (Some ui) ;; feed r' rest)%py w.
Proof. reflexivity. Qed.

(** A run through the four forms, each submitted once: the wizard
    completes with an empty title, and the entry's options become the
    init submission updated by the domain and entity submission, with
    the filter list picked by the third submission and the subscribed
    events selected in the last.  The persisted include and exclude
    entities are lists of names, the persisted filters a list of
    records and the persisted events a list of names, each possibly
    never configured. *)
Theorem run_completes_with_the_draft (h : list (list elem))
    (persisted_options : gmap string value) (remote : gset string)
    (ui1 ui2 ui3 ui4 : gmap string value) (inc exc names : list string)
    (fs : list Filter) (sel : list (nat * Filter)) (picked sel4 : list elem) :
  let w0 := init_handler h persisted_options (Some remote) in
  store_ok w0 ->
  persisted_names w0 CONF_INCLUDE_ENTITIES inc ->
  persisted_names w0 CONF_EXCLUDE_ENTITIES exc ->
  persisted_filters w0 fs ->
  persisted_names w0 CONF_SUBSCRIBE_EVENTS names ->
  ui3 !! CONF_ENTITY_ID = None ->
  ui4 !! ADD_NEW_EVENT = None ->
  submitted_list h ui3 CONF_FILTER
    = Some ((fun p => EStr (_filter_str (Z.of_nat p.1) p.2)) <$> sel) ->
  Forall2 (fun p x => (EDict <$> fs) !! p.1 = Some x) sel picked ->
  submitted_list h ui4 CONF_SUBSCRIBE_EVENTS = Some sel4 ->
  exists data,
    (run [ui1; ui2; ui3; ui4] w0).1 = Ok (CreateEntry "" data)
    /\ entry_options (run [ui1; ui2; ui3; ui4] w0).2 = data
    /\ (forall k, k <> CONF_FILTER -> k <> CONF_SUBSCRIBE_EVENTS ->
                  data !! k = (ui2 ∪ ui1) !! k)
    /\ persisted (run [ui1; ui2; ui3; ui4] w0).2 !! CONF_FILTER
       = Some (ShownList picked)
    /\ persisted (run [ui1; ui2; ui3; ui4] w0).2 !! CONF_SUBSCRIBE_EVENTS
       = Some (ShownList sel4).
Proof.
  intros w0 Hok Hinc Hexc Hfs Hnames Hid3 Hadd4 Hsel3 Hpick Hsel4.
  (* init *)
  destruct (init_submit_eq w0 ui1 remote inc exc eq_refl Hinc Hexc Hok)
    as [sch1 E1].
  set (w1 := set_heap (heap w0 ++ [[]; []]) (set_options ui1 w0)) in E1.
  (* domain and entity filters *)
  assert (persisted_filters w1 fs) as Hfs1
    by (by eapply (persisted_filters_app w0 [[]; []])).
  destruct (domain_submit_eq w1 ui2 ui1 fs eq_refl Hfs1) as (sch2 & lf & E2 & Hlf).
  set (h2 := heap w1 ++ [[]; EStr <$> filter_strs_from 0 fs]) in *.
  set (w2 := set_filters (VList lf) (set_heap h2 (set_options (ui2 ∪ ui1) w1))) in E2.
  (* general filters, finalized *)
  assert (submitted_list (heap w2) ui3 CONF_FILTER
          = Some ((fun p => EStr (_filter_str (Z.of_nat p.1) p.2)) <$> sel)) as Hsel3'.
  { simpl. unfold h2. simpl. by do 2 apply submitted_list_app. }
  assert (persisted_names w2 CONF_SUBSCRIBE_EVENTS names) as Hnames2.
  { eapply (persisted_names_ext w0 ([[]; []] ++ [[]; EStr <$> filter_strs_from 0 fs]));
      [done| |done]. simpl. unfold h2. simpl. by rewrite <- app_assoc. }
  destruct (general_finalize_eq w2 ui3 sel lf (EDict <$> fs) picked (ui2 ∪ ui1) names
              Hid3 Hsel3' eq_refl Hlf eq_refl Hpick Hnames2) as (sch3 & ext & E3).
  set (lp := Datatypes.S (length (heap w2))) in E3.
  set (opts3 := <[CONF_FILTER := VList lp]> (ui2 ∪ ui1)) in E3.
  set (h3 := heap w2 ++ [[]; picked] ++ ext) in E3.
  set (w3 := set_events (list_to_set names) (set_heap h3 (set_options opts3 w2))) in E3.
  (* events, finalized *)
  assert (submitted_list (heap w3) ui4 CONF_SUBSCRIBE_EVENTS = Some sel4) as Hsel4'.
  { simpl. unfold h3, h2. simpl. by do 3 apply submitted_list_app. }
  destruct (finalize_events_eq w3 ui4 opts3 sel4 Hadd4 eq_refl Hsel4')
    as (v & E4 & Hv).
  set (data := <[CONF_SUBSCRIBE_EVENTS := v]> opts3) in E4.
  assert (run [ui1; ui2; ui3; ui4] w0
          = (Ok (CreateEntry "" data),
             set_entry_options data
               (set_options data (set_heap (heap w3 ++ [[]]) w3)))) as Erun.
  { assert (forall sch,
              feed (ShowForm "init" sch ∅) [ui1; ui2; ui3; ui4] w0
              = (Ok (CreateEntry "" data),
                 set_options data (set_heap (heap w3 ++ [[]]) w3))) as Efeed.
    { intros sch. rewrite feed_cons.
      change (step "init" (Some ui1)) with (async_step_init (Some ui1)).
      rewrite (bind_ok _ _ _ _ _ E1), feed_cons.
      change (step "domain_entity_filters" (Some ui2))
        with (async_step_domain_entity_filters (Some ui2)).
      rewrite (bind_ok _ _ _ _ _ E2), feed_cons.
      change (step "general_filters" (Some ui3))
        with (async_step_general_filters (Some ui3)).
      rewrite (bind_ok _ _ _ _ _ E3), feed_cons.
      change (step "events" (Some ui4)) with (async_step_events (Some ui4)).
      by rewrite (bind_ok _ _ _ _ _ E4). }
    unfold run.
    rewrite (bind_ok (async_step_init None) _ w0 w0 _ eq_refl).
    by rewrite (bind_ok _ _ _ _ _ (Efeed _)). }
  exists data. rewrite Erun. cbn [fst snd]. split_and!; [done|done| | |].
  - intros k Hk1 Hk2. unfold data, opts3. by rewrite !lookup_insert_ne.
  - unfold persisted. cbn [entry_options set_entry_options].
    rewrite lookup_fmap. unfold data, opts3.
    rewrite lookup_insert_ne by done. rewrite lookup_insert_eq.
    cbn [fmap option_fmap option_map]. f_equal. apply show_list.
    cbn [heap set_heap set_options set_events].
    apply lookup_app_l_Some. unfold w3. cbn [heap set_heap set_options set_events].
    unfold h3, lp.
    rewrite lookup_app_r by lia.
    by replace (Datatypes.S (length (heap w2)) - length (heap w2))%nat
      with 1%nat by lia.
  - unfold persisted. cbn [entry_options set_entry_options].
    rewrite lookup_fmap. unfold data. rewrite lookup_insert_eq.
    cbn [fmap option_fmap option_map]. f_equal. exact Hv.
Qed.

Lemma run_completes_with_the_draft_witness :
  exists data,
    (run scenario_inputs scenario_world).1 = Ok (CreateEntry "" data)
    /\ entry_options (run scenario_inputs scenario_world).2 = data
    /\ (forall k, k <> CONF_FILTER -> k <> CONF_SUBSCRIBE_EVENTS ->
                  data !! k
                  = (({[CONF_INCLUDE_DOMAINS := VList 0%nat]} : gmap string value)
                     ∪ {[CONF_ENTITY_PREFIX := VScalar (SStr "ha_")]}) !! k)
    /\ persisted (run scenario_inputs scenario_world).2 !! CONF_FILTER
       = Some (ShownList [])
    /\ persisted (run scenario_inputs scenario_world).2 !! CONF_SUBSCRIBE_EVENTS
       = Some (ShownList [EStr "state_changed"]).
Proof.
  apply (run_completes_with_the_draft
           [[EStr "sensor"]; [EStr "state_changed"]] ∅ ∅
           {[CONF_ENTITY_PREFIX := VScalar (SStr "ha_")]}
           {[CONF_INCLUDE_DOMAINS := VList 0%nat]}
           ∅ {[CONF_SUBSCRIBE_EVENTS := VList 1%nat]}
           [] [] [] [] [] [] [EStr "state_changed"]);
    try reflexivity.
  - intros k l H. simpl in H. by rewrite lookup_empty in H.
  - constructor.
Defined.

(** *** The wizard's filter list and the entry's *)

Lemma persisted_list (w : World) (k : string) (l : loc) (xs : list elem) :
  entry_options w !! k = Some (VList l) -> heap w !! l = Some xs ->
  persisted w !! k = Some (ShownList xs).
Proof.
  intros Hk Hl. unfold persisted. rewrite lookup_fmap, Hk. simpl. by rewrite Hl.
Qed.

Lemma general_filters_entry_persisted (w : World) (l : loc) (fs : list Filter) :
  entry_options w !! CONF_FILTER = Some (VList l) ->
  heap w !! l = Some (EDict <$> fs) ->
  exists schema,
    async_step_general_filters None w
    = (Ok (ShowForm "general_filters" schema ∅),
       set_filters (VList l)
         (set_heap (heap w ++ [[]; EStr <$> filter_strs_from 0 fs]) w)).
Proof.
  intros Hopt Hl. unfold async_step_general_filters. rewrite bind_get.
  rewrite (bind_ok _ _ _ _ _ (get_or_new_list_eq _ _ _)), Hopt, bind_modify.
  set (w1 := set_filters (VList l) (set_heap (heap w ++ [[]]) w)).
  assert (heap w1 !! l = Some (EDict <$> fs)) as Hl1
    by (by apply lookup_app_l_Some).
  rewrite (bind_ok _ _ _ _ _ (filter_strings_eq l fs w1 Hl1)).
  rewrite (bind_ok _ _ _ _ _ (alloc_eq _ _)).
  unfold general_filters_form. rewrite bind_get. simpl filters.
  assert (((heap w ++ [[]]) ++ [EStr <$> filter_strs_from 0 fs]) !! l
          = Some (EDict <$> fs)) as Hl2 by (by apply lookup_app_l_Some).
  rewrite (bind_ok _ _ _ _ _
             (filter_strings_eq l fs
                (set_heap (heap w1 ++ [EStr <$> filter_strs_from 0 fs]) w1) Hl2)).
  eexists. unfold ret, set_filters, set_heap. simpl. by rewrite <- app_assoc.
Qed.

(** When the entry has a persisted filter list, the wizard works on
    that very list: a filter added in [general_filters] is appended to
    the entry's persisted list at once, before any completion, and the
    persisted options mapping still names the same list object. *)
Theorem added_filter_lands_in_persisted_list (w : World) (l : loc)
    (fs : list Filter) (ui : gmap string value) (e u a b : scalar)
    (sel : list elem) :
  entry_options w !! CONF_FILTER = Some (VList l) ->
  heap w !! l = Some (EDict <$> fs) ->
  ui !! CONF_ENTITY_ID = Some (VScalar e) ->
  dict_get ui CONF_UNIT_OF_MEASUREMENT = VScalar u ->
  dict_get ui CONF_ABOVE = VScalar a ->
  dict_get ui CONF_BELOW = VScalar b ->
  submitted_list (heap w) ui CONF_FILTER = Some sel ->
  ui !! CONF_FILTER <> Some (VList l) ->
  let w1 := (async_step_general_filters None w).2 in
  let w2 := (async_step_general_filters (Some ui) w1).2 in
  persisted w !! CONF_FILTER = Some (ShownList (EDict <$> fs))
  /\ persisted w1 !! CONF_FILTER = Some (ShownList (EDict <$> fs))
  /\ persisted w2 !! CONF_FILTER
     = Some (ShownList (EDict <$> (fs ++ [mkFilter e u a b])))
  /\ entry_options w2 = entry_options w.
Proof.
  intros Hopt Hl He Hu Ha Hb Hsel Hne. cbv zeta.
  destruct (general_filters_entry_persisted w l fs Hopt Hl) as (schema & E1).
  assert ((heap w ++ [[]; EStr <$> filter_strs_from 0 fs]) !! l
          = Some (EDict <$> fs)) as Hlf by (by apply lookup_app_l_Some).
  rewrite E1. cbn [snd].
  set (h1 := heap w ++ [[]; EStr <$> filter_strs_from 0 fs]) in *.
  set (w1 := set_filters (VList l) (set_heap h1 w)).
  assert (submitted_list (heap w1) ui CONF_FILTER = Some sel) as Hsel1
    by (by apply submitted_list_app).
  destruct (add_filter_eq w1 ui e u a b l fs sel He Hu Ha Hb eq_refl Hlf Hsel1 Hne)
    as (ls & Hls & Hlk & ->).
  cbn [snd]. split_and!; [| | |done].
  - by apply (persisted_list w CONF_FILTER l).
  - by apply (persisted_list w1 CONF_FILTER l).
  - apply (persisted_list _ CONF_FILTER l); [done|]. simpl.
    rewrite list_lookup_insert_eq, fmap_app; [done|].
    rewrite length_insert, length_app. apply lookup_lt_Some in Hlf.
    unfold w1; cbn [heap set_heap set_filters]. lia.
Qed.

Lemma added_filter_lands_in_persisted_list_witness :
  let w1 := (async_step_general_filters None one_filter_world).2 in
  let w2 := (async_step_general_filters
               (Some {[CONF_ENTITY_ID := VScalar (SStr "sensor.door.1")]}) w1).2 in
  persisted one_filter_world !! CONF_FILTER
  = Some (ShownList (EDict <$> [filter_A]))
  /\ persisted w1 !! CONF_FILTER = Some (ShownList (EDict <$> [filter_A]))
  /\ persisted w2 !! CONF_FILTER
     = Some (ShownList
               (EDict <$> ([filter_A]
                           ++ [mkFilter (SStr "sensor.door.1") SNone SNone SNone])))
  /\ entry_options w2 = entry_options one_filter_world.
Proof.
  apply (added_filter_lands_in_persisted_list one_filter_world 0%nat [filter_A]
           {[CONF_ENTITY_ID := VScalar (SStr "sensor.door.1")]}
           (SStr "sensor.door.1") SNone SNone SNone []);
    try reflexivity.
  vm_compute. intros [=].
Defined.

End WizardFacts.

(** ** The connection set-up flow *)

Module ConfigFlowFacts.
Import ConfigFlow Sample.

Section FlowFacts.
Variable discover : value -> value -> value -> value -> value -> result Info.

Lemma validate_input_eq (ui : gmap string value) (r : result Info) (w : World) :
  discovery_gives discover ui r ->
  validate_input discover ui w
  = (match r with
     | Ok info => Ok (location_name info, uuid info)
     | Raise OSError => Raise CannotConnect
     | Raise e => Raise e
     end, w).
Proof.
  intros (h & p & s & t & v & Hh & Hp & Hs & Ht & Hv & Hr).
  unfold validate_input, bind, try_except, item, call_discovery, or_raise, ret.
  rewrite Hh, Hp, Hs, Ht, Hv. simpl. rewrite Hr.
  destruct r as [info|e]; [done|]. by destruct e.
Qed.

(** An exception outside [Exception] (a cancellation, an interrupt) is
    caught by no clause: it leaves the step as it came, no form is
    shown and nothing is registered. *)
Lemma interruption_propagates (ui : gmap string value) (e : exn) (w : World) :
  discovery_gives discover ui (Raise e) ->
  is_exception e = false ->
  async_step_user discover (Some ui) w = (Raise e, w)
  /\ setup discover ui (entries w) = (Raise e, entries w).
Proof.
  intros Hd He.
  assert (forall w0, async_step_user discover (Some ui) w0 = (Raise e, w0)) as Hstep.
  { intros w0. unfold async_step_user, bind, try_except_else.
    rewrite (validate_input_eq ui (Raise e) w0 Hd). by destruct e. }
  split; [apply Hstep|]. unfold setup.
  by rewrite (bind_raise _ _ _ _ _ (Hstep _)).
Qed.

(** C2.  When the discovery call fails with an exception (a class
    derived from [Exception], which is what line 103 catches), the user
    step shows the form of the same step again with the one error code
    of the failure's kind under "base" and registers nothing: a
    connectivity failure ([OSError] or [CannotConnect]) shows
    "cannot_connect", an API rejection "api_problem", an authentication
    failure "invalid_auth", any other exception "unknown"; no two kinds
    share a code. *)
Theorem failure_shows_its_own_code (ui : gmap string value) (e : exn)
    (w : World) :
  discovery_gives discover ui (Raise e) ->
  is_exception e = true ->
  async_step_user discover (Some ui) w
  = (Ok (ShowForm "user" DATA_SCHEMA {["base" := code_of (failure_of e)]}), w)
  /\ setup discover ui (entries w)
     = (Ok (ShowForm "user" DATA_SCHEMA {["base" := code_of (failure_of e)]}),
        entries w)
  /\ (forall f, code_of f = code_of (failure_of e) -> f = failure_of e).
Proof.
  intros Hd He.
  assert (forall w0, async_step_user discover (Some ui) w0
          = (Ok (ShowForm "user" DATA_SCHEMA {["base" := code_of (failure_of e)]}), w0))
    as Hstep.
  { intros w0. unfold async_step_user, bind, try_except_else.
    rewrite (validate_input_eq ui (Raise e) w0 Hd).
    rewrite <- insert_empty. by destruct e. }
  split_and!.
  - apply Hstep.
  - unfold setup. rewrite (bind_ok _ _ _ _ _ (Hstep _)). reflexivity.
  - intros f. by destruct f, e.
Qed.

Lemma setup_eq (ui : gmap string value) (info : Info) (es : list ConfigEntry) :
  discovery_gives discover ui (Ok info) ->
  setup discover ui es
  = if bool_decide (Exists (fun e => entry_unique_id e = Some (uuid info)) es)
    then (Raise (AbortFlow "already_configured"), es)
    else (Ok (CreateEntry (location_name info) ui),
          es ++ [mkEntry (Some (uuid info)) (location_name info) ui]).
Proof.
  intros Hd. unfold setup, async_step_user, bind, try_except_else.
  rewrite (validate_input_eq ui (Ok info) _ Hd). simpl.
  unfold _abort_if_unique_id_configured, bind, get. simpl.
  by destruct (bool_decide _).
Qed.

(** C3.  On every submission for which discovery succeeds, the set-up
    step creates an entry titled with the remote's location name and
    registered under the uuid the remote reports, provided no entry
    carries that uuid yet; a second attempt for which discovery
    reports the same uuid aborts and leaves the registry as it is. *)
Theorem setup_creates_entry_then_aborts (ui ui2 : gmap string value)
    (info info2 : Info) (es : list ConfigEntry) :
  discovery_gives discover ui (Ok info) ->
  discovery_gives discover ui2 (Ok info2) ->
  uuid info2 = uuid info ->
  Forall (fun e => entry_unique_id e <> Some (uuid info)) es ->
  let created := mkEntry (Some (uuid info)) (location_name info) ui in
  setup discover ui es
  = (Ok (CreateEntry (location_name info) ui), es ++ [created])
  /\ entry_unique_id created = Some (uuid info)
  /\ entry_title created = location_name info
  /\ setup discover ui2 (es ++ [created])
     = (Raise (AbortFlow "already_configured"), es ++ [created]).
Proof.
  intros Hd Hd2 Huuid Hfresh. cbv zeta. split_and!; try done.
  - rewrite (setup_eq ui info es Hd). rewrite bool_decide_eq_false_2; [done|].
    intros Hex. apply Exists_exists in Hex as (e & He & Hid).
    by eapply Forall_forall in Hfresh.
  - rewrite (setup_eq ui2 info2 _ Hd2), Huuid. rewrite bool_decide_eq_true_2; [done|].
    apply Exists_app. right. by left.
Qed.
End FlowFacts.

Lemma failure_shows_its_own_code_witness :
async_step_user sample_discovery (Some (credentials "locked.local" "t0ken"))
  (mkWorld [] None)
= (Ok (ShowForm "user" DATA_SCHEMA {["base" := "invalid_auth"]}), mkWorld [] None)
/\ setup sample_discovery (credentials "locked.local" "t0ken") []
   = (Ok (ShowForm "user" DATA_SCHEMA {["base" := "invalid_auth"]}), [])
/\ (forall f, code_of f = "invalid_auth" -> f = AuthFailure).
Proof.
apply (failure_shows_its_own_code sample_discovery
         (credentials "locked.local" "t0ken") InvalidAuth (mkWorld [] None)).
- do 5 eexists. split_and!; reflexivity.
- reflexivity.
Defined.

Lemma setup_creates_entry_then_aborts_witness :
let created :=
  mkEntry (Some "4f1c-77aa") "Home" (credentials "ha.local" "t0ken") in
setup sample_discovery (credentials "ha.local" "t0ken") []
= (Ok (CreateEntry "Home" (credentials "ha.local" "t0ken")), [] ++ [created])
/\ entry_unique_id created = Some "4f1c-77aa"
/\ entry_title created = "Home"
/\ setup sample_discovery (credentials "ha.local" "other") ([] ++ [created])
   = (Raise (AbortFlow "already_configured"), [] ++ [created]).
Proof.
apply (setup_creates_entry_then_aborts sample_discovery
         (credentials "ha.local" "t0ken") (credentials "ha.local" "other")
         (mkInfo "Home" "4f1c-77aa") (mkInfo "Home" "4f1c-77aa") []).
- do 5 eexists. split_and!; reflexivity.
- do 5 eexists. split_and!; reflexivity.
- reflexivity.
- constructor.
Defined.

End ConfigFlowFacts.

(** ** The connection set-up flow: missing fields and the registry *)

Module SetupFlowFacts.
Import ConfigFlow Sample ConfigFlowFacts.

Section SetupFacts.
Variable discover : value -> value -> value -> value -> value -> result Info.

(** What [validate_input] can give: a title and a uuid, or an exception
    that is not [OSError] (line 73 turns that one into
    [CannotConnect]); the state is left alone. *)
Lemma validate_input_cases (ui : gmap string value) (w : World) :
  (validate_input discover ui w).2 = w
  /\ (validate_input discover ui w).1 <> Raise OSError.
Proof.
  unfold validate_input, bind, try_except, item, call_discovery, or_raise, ret, raise.
  destruct (ui !! CONF_HOST); [|done]. simpl.
  destruct (ui !! CONF_PORT); [|done]. simpl.
  destruct (ui !! CONF_SECURE); [|done]. simpl.
  destruct (ui !! CONF_ACCESS_TOKEN); [|done]. simpl.
  destruct (ui !! CONF_VERIFY_SSL); [|done]. simpl.
  destruct (discover _ _ _ _ _) as [info|e]; [done|]. by destruct e.
Qed.

(** A submission that lacks one of the five fields never reaches a
    usable discovery: the look-up of the missing key fails, the failure
    is caught as an unexpected exception, and the form comes back with
    the code "unknown"; nothing is registered. *)
Theorem missing_field_shows_unknown (ui : gmap string value) (k : string)
    (w : World) :
  k ∈ [CONF_HOST; CONF_PORT; CONF_SECURE; CONF_ACCESS_TOKEN; CONF_VERIFY_SSL] ->
  ui !! k = None ->
  async_step_user discover (Some ui) w
  = (Ok (ShowForm "user" DATA_SCHEMA {["base" := "unknown"]}), w)
  /\ setup discover ui (entries w)
     = (Ok (ShowForm "user" DATA_SCHEMA {["base" := "unknown"]}), entries w).
Proof.
  intros Hk Hnone.
  assert (forall w0, validate_input discover ui w0 = (Raise KeyError, w0)) as Hv.
  { intros w0.
    unfold validate_input, bind, try_except, item, call_discovery, or_raise, ret, raise.
    rewrite !elem_of_cons, elem_of_nil in Hk.
    destruct (ui !! CONF_HOST) eqn:E1; [|done]. simpl.
    destruct (ui !! CONF_PORT) eqn:E2; [|done]. simpl.
    destruct (ui !! CONF_SECURE) eqn:E3; [|done]. simpl.
    destruct (ui !! CONF_ACCESS_TOKEN) eqn:E4; [|done]. simpl.
    destruct (ui !! CONF_VERIFY_SSL) eqn:E5; [|done]. simpl.
    destruct Hk as [->|[->|[->|[->|[->|[]]]]]]; congruence. }
  assert (forall w0, async_step_user discover (Some ui) w0
          = (Ok (ShowForm "user" DATA_SCHEMA {["base" := "unknown"]}), w0)) as Hstep.
  { intros w0. unfold async_step_user, bind, try_except_else. rewrite Hv.
    by rewrite <- insert_empty. }
  split; [apply Hstep|]. unfold setup.
  by rewrite (bind_ok _ _ _ _ _ (Hstep _)).
Qed.

(** One set-up attempt, whatever is submitted, whatever the registry
    holds and whatever discovery does, leaves the registry as it is or
    adds one entry at its end; and when the registered unique ids were
    pairwise different, they still are. *)
Theorem setup_keeps_unique_ids_unique (ui : gmap string value)
    (es : list ConfigEntry) :
  ((setup discover ui es).2 = es
   \/ exists title uid,
        (setup discover ui es).1 = Ok (CreateEntry title ui)
        /\ (setup discover ui es).2 = es ++ [mkEntry (Some uid) title ui])
  /\ (NoDup (entry_unique_id <$> es) ->
      NoDup (entry_unique_id <$> (setup discover ui es).2)).
Proof.
  unfold setup, async_step_user, bind, try_except_else.
  pose proof (validate_input_cases ui (mkWorld es None)) as [Hs _].
  destruct (validate_input discover ui (mkWorld es None)) as [[[title uid]|e] w1];
    simpl in Hs; subst w1; simpl;
    [|destruct (error_code e); by split; [left|]].
  unfold _abort_if_unique_id_configured, bind, get. simpl.
  destruct (bool_decide (Exists (fun e => entry_unique_id e = Some uid) es)) eqn:E;
    simpl; [by split; [left|]|].
  apply bool_decide_eq_false in E. split; [right; by exists title, uid|].
  intros Hnd.
  rewrite fmap_app. apply NoDup_app. split_and!; [done| |apply NoDup_singleton].
  intros x Hx Hin. apply list_elem_of_singleton in Hin as ->. apply E.
  apply list_elem_of_fmap in Hx as (e & He & Hee). apply Exists_exists. by exists e.
Qed.
End SetupFacts.

Lemma missing_field_shows_unknown_witness :
async_step_user sample_discovery
  (Some (delete CONF_ACCESS_TOKEN (credentials "ha.local" "t0ken"))) (mkWorld [] None)
= (Ok (ShowForm "user" DATA_SCHEMA {["base" := "unknown"]}), mkWorld [] None)
/\ setup sample_discovery (delete CONF_ACCESS_TOKEN (credentials "ha.local" "t0ken"))
     (entries (mkWorld [] None))
   = (Ok (ShowForm "user" DATA_SCHEMA {["base" := "unknown"]}),
      entries (mkWorld [] None)).
Proof.
apply (missing_field_shows_unknown sample_discovery
         (delete CONF_ACCESS_TOKEN (credentials "ha.local" "t0ken"))
         CONF_ACCESS_TOKEN (mkWorld [] None)).
- apply list_elem_of_In. vm_compute. auto.
- reflexivity.
Defined.

Lemma setup_keeps_unique_ids_unique_witness :
((setup sample_discovery (credentials "ha.local" "t0ken") two_without_id).2
 = two_without_id
 \/ exists title uid,
      (setup sample_discovery (credentials "ha.local" "t0ken") two_without_id).1
      = Ok (CreateEntry title (credentials "ha.local" "t0ken"))
      /\ (setup sample_discovery (credentials "ha.local" "t0ken") two_without_id).2
         = two_without_id
           ++ [mkEntry (Some uid) title (credentials "ha.local" "t0ken")])
/\ NoDup (entry_unique_id
          <$> (setup sample_discovery (credentials "ha.local" "t0ken")
                 [mkEntry (Some "0a0a-0001") "Cabin" ∅]).2).
Proof.
split.
- apply (setup_keeps_unique_ids_unique sample_discovery
           (credentials "ha.local" "t0ken") two_without_id).
- apply (setup_keeps_unique_ids_unique sample_discovery
           (credentials "ha.local" "t0ken") [mkEntry (Some "0a0a-0001") "Cabin" ∅]).
  apply NoDup_singleton.
Defined.

End SetupFlowFacts.
